(** * capi2argo-cluster-operator: the reconciliation pass

    A shallow embedding of [controllers/capi2argo_reconciler.go] and the
    properties of one reconciliation pass: which store calls it issues, what
    it returns, and what it leaves untouched.

    The Kubernetes object store behind [client.Client] is a finite map from
    namespaced names to secrets, together with a script of injected call
    failures; the pass is a state-passing function over that world and
    records every client call and log line it makes. *)

From Stdlib Require Import Strings.Byte.
From stdpp Require Import gmap strings list fin_maps.

Set Default Proof Using "Type".
Local Open Scope string_scope.

(** ** Go values *)

(** [[]byte].  [bytes.Equal] treats a nil slice and an empty slice alike, and
    the pass never tells them apart either, so both are the empty list. *)
Abbreviation bytes := (list byte).

#[global] Instance byte_eq_dec : EqDecision byte := Byte.byte_eq_dec.

(** [[]byte(s)] *)
Definition bytes_of_string (s : string) : bytes := String.list_byte_of_string s.

(** [bytes.Equal] *)
Definition bytes_Equal (a b : bytes) : bool := bool_decide (a = b).

(** A Go [map[string]V]: [None] is the nil map.  Reading a nil map or a
    missing key gives the zero value; storing into a nil map panics. *)
Module GoMap.

Definition t (V : Type) : Type := option (gmap string V).

(** [m[k]] *)
Definition get {V} (zero : V) (m : t V) (k : string) : V :=
  match m with
  | None => zero
  | Some g => default zero (g !! k)
  end.

(** [m[k] = v]; [None] stands for the run-time panic
    "assignment to entry in nil map". *)
Definition set {V} (m : t V) (k : string) (v : V) : option (t V) :=
  match m with
  | None => None
  | Some g => Some (Some (<[k := v]> g))
  end.

(** A map literal [map[string]V{k1: v1, ...}]. *)
Definition of_list {V} (l : list (string * V)) : t V := Some (list_to_map l).

End GoMap.

(** ** Kubernetes objects *)

(** [types.NamespacedName] *)
Record NamespacedName := mkNN { Namespace : string; Name : string }.

#[global] Instance NamespacedName_eq_dec : EqDecision NamespacedName.
Proof. solve_decision. Defined.

#[global] Instance NamespacedName_countable : Countable NamespacedName.
Proof.
  refine (inj_countable' (fun n => (Namespace n, Name n))
                         (fun p => mkNN p.1 p.2) _).
  by intros [].
Defined.

(** [metav1.ObjectMeta], with the fields the pass reads and two it never looks
    at ([Annotations], [ResourceVersion]) standing for the rest. *)
Record ObjectMeta := mkMeta {
  metaName : string;
  metaNamespace : string;
  Labels : GoMap.t string;
  Annotations : GoMap.t string;
  ResourceVersion : string
}.

(** [corev1.Secret] *)
Record Secret := mkSecret {
  SecretMeta : ObjectMeta;
  Type_ : string;
  Data : GoMap.t bytes
}.

Definition key_of (s : Secret) : NamespacedName :=
  mkNN (metaNamespace (SecretMeta s)) (metaName (SecretMeta s)).

Definition with_labels (s : Secret) (l : GoMap.t string) : Secret :=
  mkSecret (mkMeta (metaName (SecretMeta s)) (metaNamespace (SecretMeta s)) l
                   (Annotations (SecretMeta s)) (ResourceVersion (SecretMeta s)))
           (Type_ s) (Data s).

Definition with_data (s : Secret) (d : GoMap.t bytes) : Secret :=
  mkSecret (SecretMeta s) (Type_ s) d.

(** The part of [clusterv1.Cluster] the pass reads:
    [cluster.Spec.Topology] (a pointer) and its [Class]. *)
Record Topology := mkTopology { Class : string }.
Record Cluster := mkCluster { clusterName : string; SpecTopology : option Topology }.

(** ** Go errors *)

(** [error] values: API status errors by reason, [errors.New] strings, and
    [fmt.Errorf("...: %w", err)] wrappers. *)
Inductive error :=
| StatusNotFound
| StatusAlreadyExists
| StatusConflict
| StatusUnavailable
| ErrorString (msg : string)
| Wrapped (msg : string) (inner : error).

(** [errors.IsNotFound]: looks through [%w] wrappers. *)
Fixpoint IsNotFound (e : error) : bool :=
  match e with
  | StatusNotFound => true
  | Wrapped _ inner => IsNotFound inner
  | _ => false
  end.

(** [client.IgnoreNotFound] on a non-nil error. *)
Definition IgnoreNotFound (e : error) : option error :=
  if IsNotFound e then None else Some e.

(** What a call of [Reconcile] does in the end: it returns
    [(ctrl.Result{}, err)] ([None] is the nil error), or it panics. *)
Inductive Returned :=
| Return (err : option error)
| Panic (msg : string).

#[global] Instance ObjectMeta_eq_dec : EqDecision ObjectMeta.
Proof. solve_decision. Defined.

#[global] Instance Secret_eq_dec : EqDecision Secret.
Proof. solve_decision. Defined.

#[global] Instance error_eq_dec : EqDecision error.
Proof. solve_decision. Defined.

(** ** The world behind [client.Client] *)

(** What the pass does that can be seen from outside: client calls and log
    lines, in the order they happen. *)
Inductive Event :=
| CallGet (key : NamespacedName)
| CallResolve (meta : ObjectMeta)
| CallCreate (obj : Secret)
| CallUpdate (obj : Secret)
| LogInfo (msg : string)
| LogError (msg : string).

#[global] Instance Event_eq_dec : EqDecision Event.
Proof. solve_decision. Defined.

(** [store] holds the secrets of the API server.  [faults] scripts the
    failures of the coming client calls: each [Get], [Create] or [Update]
    takes the head, and fails with it when it is an error.  [clusters] is what
    the Cluster API lookup answers for a given object. *)
Record World := mkWorld {
  store : gmap NamespacedName Secret;
  faults : list (option error);
  clusters : ObjectMeta -> error + Cluster;
  events : list Event
}.

Definition M (A : Type) : Type := World -> A * World.

Definition ret {A} (a : A) : M A := fun w => (a, w).

Definition bind {A B} (m : M A) (k : A -> M B) : M B :=
  fun w => let '(a, w') := m w in k a w'.

Declare Scope reconcile_scope.
Delimit Scope reconcile_scope with reconcile.
Notation "x <- m ; k" := (bind m (fun x => k))
  (at level 100, m at next level, right associativity) : reconcile_scope.
Notation "m ;; k" := (bind m (fun _ => k))
  (at level 100, right associativity) : reconcile_scope.
Local Open Scope reconcile_scope.

Definition emit (e : Event) : M unit :=
  fun w => (tt, mkWorld (store w) (faults w) (clusters w) (events w ++ [e])).

Definition log_Info (msg : string) : M unit := emit (LogInfo msg).
Definition log_Error (msg : string) : M unit := emit (LogError msg).

Definition take_fault : M (option error) :=
  fun w => match faults w with
           | [] => (None, w)
           | f :: fs => (f, mkWorld (store w) fs (clusters w) (events w))
           end.

Definition read_store : M (gmap NamespacedName Secret) := fun w => (store w, w).

Definition write_store (k : NamespacedName) (s : Secret) : M unit :=
  fun w => (tt, mkWorld (<[k := s]> (store w)) (faults w) (clusters w) (events w)).

(** [r.Get(ctx, key, &obj)] *)
Definition Get (key : NamespacedName) : M (error + Secret) :=
  emit (CallGet key);;
  f <- take_fault;
  match f with
  | Some e => ret (inl e)
  | None =>
      st <- read_store;
      match st !! key with
      | Some s => ret (inr s)
      | None => ret (inl StatusNotFound)
      end
  end.

(** [r.Create(ctx, obj)] *)
Definition Create (obj : Secret) : M (option error) :=
  emit (CallCreate obj);;
  f <- take_fault;
  match f with
  | Some e => ret (Some e)
  | None =>
      st <- read_store;
      match st !! key_of obj with
      | Some _ => ret (Some StatusAlreadyExists)
      | None => write_store (key_of obj) obj;; ret None
      end
  end.

(** [r.Update(ctx, obj)] *)
Definition Update (obj : Secret) : M (option error) :=
  emit (CallUpdate obj);;
  f <- take_fault;
  match f with
  | Some e => ret (Some e)
  | None =>
      st <- read_store;
      match st !! key_of obj with
      | Some _ => write_store (key_of obj) obj;; ret None
      | None => ret (Some StatusNotFound)
      end
  end.

(** [util.GetClusterFromMetadata(ctx, r.Client, meta)] of Cluster API. *)
Definition GetClusterFromMetadata (meta : ObjectMeta) : M (error + Cluster) :=
  emit (CallResolve meta);;
  fun w => (clusters w meta, w).

(** ** Process configuration: [init] *)

(** [strconv.ParseBool]: the accepted spellings, and an error (the value is
    then [false]) for everything else. *)
Definition ParseBool (s : string) : bool * option error :=
  if bool_decide (s ∈ ["1"; "t"; "T"; "TRUE"; "true"; "True"]) then (true, None)
  else if bool_decide (s ∈ ["0"; "f"; "F"; "FALSE"; "false"; "False"]) then (false, None)
  else (false, Some (ErrorString "invalid syntax")).

(** The package variables [init] sets. *)
Record Config := mkConfig {
  ArgoNamespace : string;
  EnableNamespacedNames : bool
}.

(** [init], with [os.Getenv] as a function. *)
Definition init (Getenv : string -> string) : Config :=
  let ns := Getenv "ARGOCD_NAMESPACE" in
  mkConfig (if bool_decide (ns = "") then "argocd" else ns)
           (ParseBool (Getenv "ENABLE_NAMESPACED_NAMES")).1.

(** ** The ownership guard *)

(** [ValidateObjectOwner] *)
Definition ValidateObjectOwner (s : Secret) : option error :=
  if bool_decide (GoMap.get "" (Labels (SecretMeta s)) "capi-to-argocd/owned" ≠ "true")
  then Some (ErrorString "not owned by CACO")
  else None.

(** ** The rest of package [controllers]

    [Reconcile] calls functions of its package that live in other files.  They
    are an interface here; the pass is defined, and most of its properties
    hold, for every implementation of it. *)
Class Package := {
  CapiCluster : Type;
  ArgoCluster : Type;
  (** [ValidateCapiNaming(n)] *)
  ValidateCapiNaming : NamespacedName -> bool;
  (** [ValidateCapiSecret(&s)] *)
  ValidateCapiSecret : Secret -> option error;
  (** [c := NewCapiCluster(); err = c.Unmarshal(&s)] *)
  Unmarshal : Secret -> error + CapiCluster;
  (** [NewArgoCluster(c, &s)] *)
  NewArgoCluster : CapiCluster -> Secret -> ArgoCluster;
  (** the fields of [ArgoCluster] that [Reconcile] reads *)
  ArgoNamespacedName : ArgoCluster -> NamespacedName;
  ClusterName : ArgoCluster -> string;
  ClusterServer : ArgoCluster -> string;
  (** [a.ConvertToSecret()] *)
  ConvertToSecret : ArgoCluster -> error + Secret
}.

(** ** [Reconcile] *)

Section Reconciler.
Context `{pkg : Package}.

(** Lines 93-96: [if cluster.Spec.Topology != nil { argoSecret.Labels["class"] = ... }].
    [None] is the panic of a store into a nil [Labels] map. *)
Definition set_class (cluster : Cluster) (argoSecret : Secret) : option Secret :=
  match SpecTopology cluster with
  | None => Some argoSecret
  | Some topo =>
      match GoMap.set (Labels (SecretMeta argoSecret)) "class" (Class topo) with
      | None => None
      | Some l => Some (with_labels argoSecret l)
      end
  end.

(** Lines 47-96: from the request to the transformed [argoCluster] and
    [argoSecret], or the early return. *)
Definition fetch_and_transform (req : NamespacedName)
  : M (Returned + ArgoCluster * Secret) :=
  if negb (ValidateCapiNaming req) then ret (inl (Return None)) else
  r <- Get req;
  match r with
  | inl err => ret (inl (Return (IgnoreNotFound err)))
  | inr capiSecret =>
  log_Info "Fetched CapiSecret";;
  match ValidateCapiSecret capiSecret with
  | Some err =>
      log_Info "Ignoring secret as it's missing proper CAPI type";;
      ret (inl (Return (Some err)))
  | None =>
  c <- GetClusterFromMetadata (SecretMeta capiSecret);
  match c with
  | inl err =>
      ret (inl (Return (Some (Wrapped "failed to get cluster object from secret" err))))
  | inr cluster =>
  match Unmarshal capiSecret with
  | inl err =>
      log_Error "Failed to unmarshal CapiCluster";;
      ret (inl (Return (Some err)))
  | inr capiCluster =>
  let argoCluster := NewArgoCluster capiCluster capiSecret in
  match ConvertToSecret argoCluster with
  | inl err =>
      log_Error "Failed to convert ArgoCluster to ArgoSecret";;
      ret (inl (Return (Some err)))
  | inr argoSecret =>
  match set_class cluster argoSecret with
  | None => ret (inl (Panic "assignment to entry in nil map"))
  | Some argoSecret => ret (inr (argoCluster, argoSecret))
  end end end end end end.

(** One of the three blocks of lines 141-154:
    [if !bytes.Equal(existingSecret.Data[k], want) { existingSecret.Data[k] = want; changed = true }]
    on the pair ([existingSecret], [changed]); [None] is the panic of a store
    into a nil [Data] map. *)
Definition sync_field (k : string) (want : bytes) (st : Secret * bool)
  : option (Secret * bool) :=
  if negb (bytes_Equal (GoMap.get [] (Data st.1) k) want) then
    match GoMap.set (Data st.1) k want with
    | None => None
    | Some d => Some (with_data st.1 d, true)
    end
  else Some st.

(** Lines 140-154. *)
Definition diff_fields (argoCluster : ArgoCluster) (argoSecret existingSecret : Secret)
  : option (Secret * bool) :=
  st ← sync_field "name" (bytes_of_string (ClusterName argoCluster)) (existingSecret, false);
  st ← sync_field "server" (bytes_of_string (ClusterServer argoCluster)) st;
  sync_field "config" (GoMap.get [] (Data argoSecret) "config") st.

(** Lines 130-167: [case true] of the switch. *)
Definition reconcile_existing (argoCluster : ArgoCluster) (argoSecret existingSecret : Secret)
  : M Returned :=
  log_Info "Checking if ArgoSecret is managed by the Controller";;
  match ValidateObjectOwner existingSecret with
  | Some _ =>
      log_Info "Not managed by Controller, skipping..";;
      ret (Return None)
  | None =>
  log_Info "Checking if ArgoSecret is out-of-sync with";;
  match diff_fields argoCluster argoSecret existingSecret with
  | None => ret (Panic "assignment to entry in nil map")
  | Some (existingSecret, true) =>
      log_Info "Updating out-of-sync ArgoSecret";;
      e <- Update existingSecret;
      match e with
      | Some err => log_Error "Failed to update ArgoSecret";; ret (Return (Some err))
      | None => log_Info "Updated successfully of ArgoSecret";; ret (Return None)
      end
  | Some (_, false) =>
      log_Info "ArgoSecret is in-sync with CapiCluster, skipping..";;
      ret (Return None)
  end end.

(** Lines 98-170: look the ArgoSecret up, then create, update or leave it. *)
Definition sync_argo_secret (argoCluster : ArgoCluster) (argoSecret : Secret)
  : M Returned :=
  r <- Get (ArgoNamespacedName argoCluster);
  match r with
  | inl err =>
      if IsNotFound err then
        log_Info "ArgoSecret does not exists, creating..";;
        e <- Create argoSecret;
        match e with
        | Some err => log_Error "Failed to create ArgoSecret";; ret (Return (Some err))
        | None => log_Info "Created new ArgoSecret";; ret (Return None)
        end
      else
        log_Error "Failed to fetch ArgoSecret to check if exists";;
        ret (Return (Some err))
  | inr existingSecret =>
      log_Info "ArgoSecret exists, checking state..";;
      reconcile_existing argoCluster argoSecret existingSecret
  end.

(** [func (r *Capi2Argo) Reconcile(ctx, req) (ctrl.Result, error)] *)
Definition Reconcile (req : NamespacedName) : M Returned :=
  x <- fetch_and_transform req;
  match x with
  | inl r => ret r
  | inr (argoCluster, argoSecret) => sync_argo_secret argoCluster argoSecret
  end.

End Reconciler.

(** ** Outcomes of a pass *)

(** The events of a pass that started in [w] and ended in [w']. *)
Definition pass_events (w w' : World) : list Event :=
  drop (length (events w)) (events w').

Definition is_write (e : Event) : bool :=
  match e with
  | CallCreate _ | CallUpdate _ => true
  | _ => false
  end.

(** No [Create] and no [Update] was issued. *)
Definition no_writes (evs : list Event) : Prop := Forall (fun e => is_write e = false) evs.

(** The terminal states of the pass.  [Crashed] is a Go panic. *)
Inductive Outcome := Created | Updated | InSync | Skipped | Failed | Crashed.

(** The terminal state, read off what [Reconcile] returned and the last line
    it logged: each of [Created], [Updated] and [InSync] has its own closing
    log line; every other nil return is a skip, every error a failure. *)
Definition outcome (r : Returned) (evs : list Event) : Outcome :=
  match r with
  | Panic _ => Crashed
  | Return (Some _) => Failed
  | Return None =>
      match last evs with
      | Some (LogInfo msg) =>
          if String.eqb msg "Created new ArgoSecret" then Created
          else if String.eqb msg "Updated successfully of ArgoSecret" then Updated
          else if String.eqb msg "ArgoSecret is in-sync with CapiCluster, skipping.." then InSync
          else Skipped
      | _ => Skipped
      end
  end.

(** A pass is retried by the controller runtime exactly when it returns an
    error (or panics); a nil error with the empty [ctrl.Result] is final. *)
Definition retried (r : Returned) : bool :=
  match r with
  | Return None => false
  | _ => true
  end.

(** ** Notions for the statements *)

(** The world [w] after the events [evs]. *)
Definition logged (w : World) (evs : list Event) : World :=
  mkWorld (store w) (faults w) (clusters w) (events w ++ evs).

(** What one block of the field diff does to a data map that is there:
    [k] is overwritten only when its bytes differ from [want]. *)
Definition patch (k : string) (want : bytes) (d : gmap string bytes) : gmap string bytes :=
  if bool_decide (default [] (d !! k) = want) then d else <[k := want]> d.

(** The calls that reach the API server. *)
Definition is_client_call (e : Event) : bool :=
  match e with
  | CallGet _ | CallResolve _ | CallCreate _ | CallUpdate _ => true
  | _ => false
  end.

(** Every object of the store sits under its own namespace and name, as the
    API server keeps it. *)
Definition well_keyed (st : gmap NamespacedName Secret) : Prop :=
  forall k s, st !! k = Some s -> key_of s = k.

(** The store after a pass, from what the pass returned and the writes it
    issued: a write counts when the pass returned nil. *)
Definition store_after (st : gmap NamespacedName Secret) (r : Returned)
    (writes : list Event) : gmap NamespacedName Secret :=
  match r, writes with
  | Return None, [CallCreate obj] | Return None, [CallUpdate obj] => <[key_of obj := obj]> st
  | _, _ => st
  end.

Section Notions.
Context `{pkg : Package}.

(** The data map after lines 140-154, and whether those lines found the three
    fields equal. *)
Definition patched (argoCluster : ArgoCluster) (argoSecret : Secret)
    (d : gmap string bytes) : gmap string bytes :=
  patch "config" (GoMap.get [] (Data argoSecret) "config")
    (patch "server" (bytes_of_string (ClusterServer argoCluster))
       (patch "name" (bytes_of_string (ClusterName argoCluster)) d)).

(** The transformed record asks for three empty fields. *)
Definition wants_nothing (argoCluster : ArgoCluster) (argoSecret : Secret) : bool :=
  bool_decide (bytes_of_string (ClusterName argoCluster) = []) &&
  bool_decide (bytes_of_string (ClusterServer argoCluster) = []) &&
  bool_decide (GoMap.get [] (Data argoSecret) "config" = []).

Definition in_sync (argoCluster : ArgoCluster) (argoSecret : Secret)
    (d : gmap string bytes) : bool :=
  bool_decide (default [] (d !! "name") = bytes_of_string (ClusterName argoCluster)) &&
  bool_decide (default [] (d !! "server") = bytes_of_string (ClusterServer argoCluster)) &&
  bool_decide (default [] (d !! "config") = GoMap.get [] (Data argoSecret) "config").


End Notions.

(** ** The helpers of the package, from the specification *)

Module SpecModel.

(** The type tag of a CAPI kubeconfig secret (line 61 of the reconciler). *)
Definition CapiSecretType : string := "cluster.x-k8s.io/secret".

(** The credential suffix of [<clusterName>-kubeconfig] (line 47). *)
Definition KubeconfigSuffix : string := "-kubeconfig".

(** [TrimSuffix s suffix] is [Some p] exactly when [s = p ++ suffix]. *)
Fixpoint TrimSuffix (s suffix : string) : option string :=
  if String.eqb s suffix then Some ""
  else match s with
       | EmptyString => None
       | String c s' => String c <$> TrimSuffix s' suffix
       end.

(** Modelled from the spec: [ValidateCapiNaming] is not in the reconciler's
    file.  Section 4.1: true only if the name ends in the fixed credential
    suffix and the prefix, the cluster name, is non-empty. *)
Definition ValidateCapiNaming (n : NamespacedName) : bool :=
  match TrimSuffix (Name n) KubeconfigSuffix with
  | Some clusterName => negb (String.eqb clusterName "")
  | None => false
  end.

(** Modelled from the spec: [ValidateCapiSecret] is not in the reconciler's
    file.  Section 4.2: fails with InvalidRecordKind when the type tag is not
    the expected constant, or with MissingDataField when the
    connection-configuration field ([value], section 8) is absent. *)
Definition ValidateCapiSecret (s : Secret) : option error :=
  if bool_decide (Type_ s ≠ CapiSecretType) then Some (ErrorString "InvalidRecordKind")
  else match Data s with
       | Some g => if bool_decide (is_Some (g !! "value")) then None
                   else Some (ErrorString "MissingDataField")
       | None => Some (ErrorString "MissingDataField")
       end.

(** The connection configuration and its wire formats are outside the
    specification: how [value] is parsed, which server a configuration points
    to, and how it is serialized for the registry. *)
Class Codec := {
  KubeConfig : Type;
  parse : bytes -> option KubeConfig;
  server : KubeConfig -> string;
  marshal : KubeConfig -> bytes
}.

(** Modelled from the spec: the [ArgoCluster] struct is not in the
    reconciler's file.  The three fields [Reconcile] reads, the labels and the
    serialized configuration of section 4.4. *)
Record ArgoCluster := mkArgoCluster {
  NamespacedName_ : NamespacedName;
  ClusterName_ : string;
  ClusterServer_ : string;
  ClusterLabels : GoMap.t string;
  ClusterConfig : bytes
}.

Section WithConfig.
Context (cfg : Config) `{codec : Codec}.

(** Modelled from the spec: the unmarshalling of a credential record is not in
    the reconciler's file.  Section 4.4: all fallibility lives in parsing the
    connection configuration, surfaced as MalformedConfig. *)
Definition Unmarshal (s : Secret) : error + KubeConfig :=
  match parse (GoMap.get [] (Data s) "value") with
  | Some k => inr k
  | None => inl (ErrorString "MalformedConfig")
  end.

(** The cluster name of a credential identifier: the prefix before the
    suffix (the identifier itself when it has no such suffix). *)
Definition cluster_name_of (name : string) : string :=
  default name (TrimSuffix name KubeconfigSuffix).

(** Modelled from the spec: the naming rule is not in the reconciler's file.
    Sections 3 and 6: the identifier is derived from the credential
    identifier and placed in the fixed registry namespace; a flag controls
    whether the credential's namespace is folded into it. *)
Definition BuildNamespacedName (name namespace : string) : NamespacedName :=
  mkNN (ArgoNamespace cfg)
       (if EnableNamespacedNames cfg
        then namespace ++ "-" ++ cluster_name_of name
        else cluster_name_of name).

(** Modelled from the spec: [NewArgoCluster] is not in the reconciler's file.
    Section 4.4: name = the cluster name of the credential identifier,
    server = the endpoint of the parsed configuration, config = its
    serialization, and the managed-by marker among the labels. *)
Definition NewArgoCluster (c : KubeConfig) (s : Secret) : ArgoCluster :=
  mkArgoCluster
    (BuildNamespacedName (metaName (SecretMeta s)) (metaNamespace (SecretMeta s)))
    (cluster_name_of (metaName (SecretMeta s)))
    (server c)
    (GoMap.of_list [("capi-to-argocd/owned", "true")])
    (marshal c).

(** Modelled from the spec: [ConvertToSecret] is not in the reconciler's
    file.  Sections 4.4 and 6: a total function giving the target record with
    data fields [name], [server], [config] and the labels. *)
Definition ConvertToSecret (a : ArgoCluster) : error + Secret :=
  inr (mkSecret
         (mkMeta (Name (NamespacedName_ a)) (Namespace (NamespacedName_ a))
                 (ClusterLabels a) None "")
         "Opaque"
         (GoMap.of_list [("name", bytes_of_string (ClusterName_ a));
                         ("server", bytes_of_string (ClusterServer_ a));
                         ("config", ClusterConfig a)])).

(** The package with these helpers. *)
Definition package : Package :=
  Build_Package KubeConfig ArgoCluster ValidateCapiNaming ValidateCapiSecret
                Unmarshal NewArgoCluster NamespacedName_ ClusterName_ ClusterServer_
                ConvertToSecret.

End WithConfig.

(** A codec for the examples: a connection configuration that consists of
    its server URL only. *)
Definition url_codec : Codec := {|
  KubeConfig := string;
  parse := fun b => Some (String.string_of_list_byte b);
  server := fun s => s;
  marshal := fun s => bytes_of_string s
|}.

End SpecModel.

(** ** Scenarios *)

Module Scenario.
Import SpecModel.

(** The configuration of a process started with an empty environment. *)
Definition cfg : Config := init (fun _ => "").

Definition pkg : Package := @package cfg url_codec.

Definition secret (namespace name type : string) (labels : GoMap.t string)
    (data : GoMap.t bytes) : Secret :=
  mkSecret (mkMeta name namespace labels None "1") type data.

(** The credential record [default/demo-kubeconfig] of a cluster at
    [https://1.2.3.4:6443]. *)
Definition capi_demo : Secret :=
  secret "default" "demo-kubeconfig" CapiSecretType None
    (GoMap.of_list [("value", bytes_of_string "https://1.2.3.4:6443")]).

(** The same record in another namespace. *)
Definition capi_demo_staging : Secret :=
  secret "staging" "demo-kubeconfig" CapiSecretType None
    (GoMap.of_list [("value", bytes_of_string "https://1.2.3.4:6443")]).

(** A record of that name that is not a CAPI kubeconfig secret. *)
Definition capi_wrong_type : Secret :=
  secret "default" "demo-kubeconfig" "Opaque" None
    (GoMap.of_list [("value", bytes_of_string "https://1.2.3.4:6443")]).

Definition req_demo : NamespacedName := mkNN "default" "demo-kubeconfig".

Definition argo_demo : NamespacedName := mkNN "argocd" "demo".

(** A registration record somebody else put there: no labels at all. *)
Definition argo_foreign : Secret :=
  secret "argocd" "demo" "Opaque" None
    (GoMap.of_list [("name", bytes_of_string "demo");
                    ("server", bytes_of_string "https://9.9.9.9:6443")]).

(** A registration record with the marker spelled "True". *)
Definition argo_True : Secret :=
  secret "argocd" "demo" "Opaque"
    (GoMap.of_list [("capi-to-argocd/owned", "True")])
    (GoMap.of_list [("name", bytes_of_string "demo")]).

(** An owned registration record with a stale server and a key of its own. *)
Definition argo_stale : Secret :=
  secret "argocd" "demo" "Opaque"
    (GoMap.of_list [("capi-to-argocd/owned", "true"); ("team", "blue")])
    (GoMap.of_list [("name", bytes_of_string "demo");
                    ("server", bytes_of_string "https://9.9.9.9:6443");
                    ("config", bytes_of_string "https://1.2.3.4:6443");
                    ("note", bytes_of_string "keep")]).

(** [argo_stale] with the server of [capi_demo], everything else as it was. *)
Definition argo_fresh : Secret :=
  secret "argocd" "demo" "Opaque"
    (GoMap.of_list [("capi-to-argocd/owned", "true"); ("team", "blue")])
    (GoMap.of_list [("name", bytes_of_string "demo");
                    ("server", bytes_of_string "https://1.2.3.4:6443");
                    ("config", bytes_of_string "https://1.2.3.4:6443");
                    ("note", bytes_of_string "keep")]).

(** An owned registration record stored without any data: its data map is
    nil when it is read back. *)
Definition argo_no_data : Secret :=
  secret "argocd" "demo" "Opaque"
    (GoMap.of_list [("capi-to-argocd/owned", "true")]) None.

Definition resolves : ObjectMeta -> error + Cluster :=
  fun _ => inr (mkCluster "demo" None).


Definition world (objs : list Secret) (clusters : ObjectMeta -> error + Cluster) : World :=
  mkWorld (list_to_map ((fun s => (key_of s, s)) <$> objs)) [] clusters [].

Definition argoCluster_demo : ArgoCluster :=
  NewArgoCluster cfg (codec := url_codec) "https://1.2.3.4:6443" capi_demo.

Definition argoSecret_demo : Secret :=
  match ConvertToSecret argoCluster_demo with
  | inr s => s
  | inl _ => capi_demo
  end.

End Scenario.

(** ** More scenarios *)

Module MoreScenarios.
Import SpecModel Scenario.

(** A codec that turns an empty configuration down. *)
Definition picky_codec : Codec := {|
  KubeConfig := string;
  parse := fun b => if bool_decide (b = []) then None
                    else Some (String.string_of_list_byte b);
  server := fun s => s;
  marshal := fun s => bytes_of_string s
|}.

Definition pkg_picky : Package := @package cfg picky_codec.

(** A credential record whose [value] is there and empty. *)
Definition capi_empty : Secret :=
  secret "default" "demo-kubeconfig" CapiSecretType None
    (GoMap.of_list [("value", [])]).

(** The cluster of the credential record, with a topology of class "prod". *)
Definition resolves_with_class : ObjectMeta -> error + Cluster :=
  fun _ => inr (mkCluster "demo" (Some (mkTopology "prod"))).

(** A world with a script of failures for the coming calls. *)
Definition world_with (objs : list Secret) (clusters : ObjectMeta -> error + Cluster)
    (faults : list (option error)) : World :=
  mkWorld (store (world objs clusters)) faults clusters [].

(** An environment that sets the registry namespace and nothing else. *)
Definition env_gitops (name : string) : string :=
  if bool_decide (name = "ARGOCD_NAMESPACE") then "gitops" else "".

(** The data map of [argo_stale]. *)
Definition data_stale : gmap string bytes :=
  list_to_map [("name", bytes_of_string "demo");
               ("server", bytes_of_string "https://9.9.9.9:6443");
               ("config", bytes_of_string "https://1.2.3.4:6443");
               ("note", bytes_of_string "keep")].

End MoreScenarios.

(** * Properties *)

Local Open Scope list_scope.

(** ** Client calls *)

Lemma pass_events_app w w' evs :
  events w' = events w ++ evs -> pass_events w w' = evs.
Proof. intros E. unfold pass_events. rewrite E. apply drop_app_length. Qed.

(** A [Get] changes neither the store nor the cluster lookup, and leaves one
    event. *)
Lemma Get_frame key w r w' :
  Get key w = (r, w') ->
  store w' = store w /\ clusters w' = clusters w /\
  events w' = events w ++ [CallGet key] /\ faults w' = tail (faults w).
Proof.
  unfold Get, bind, emit, take_fault, read_store, ret. simpl.
  destruct (faults w) as [|[e|] fs]; simpl;
    repeat case_match; intros [= <- <-]; simpl; auto.
Qed.

(** What a [Get] answers: the scripted failure if there is one, else the
    stored object, else NotFound. *)
Lemma Get_result key w :
  (Get key w).1 =
  match head (faults w) with
  | Some (Some e) => inl e
  | _ => match store w !! key with
         | Some s => inr s
         | None => inl StatusNotFound
         end
  end.
Proof.
  unfold Get, bind, emit, take_fault, read_store, ret. simpl.
  destruct (faults w) as [|[e|] fs]; simpl; repeat case_match; simplify_eq; auto.
Qed.

Lemma Get_found key w s w' :
  Get key w = (inr s, w') -> store w !! key = Some s.
Proof.
  intros E. pose proof (Get_result key w) as R. rewrite E in R. simpl in R.
  repeat case_match; simplify_eq; auto.
Qed.

(** ** Patching a data map *)

Lemma patch_lookup_ne k k' want (d : gmap string bytes) :
  k <> k' -> patch k want d !! k' = d !! k'.
Proof. intros Hne. unfold patch. case_bool_decide; [done|]. by rewrite lookup_insert_ne. Qed.

Lemma patch_get k want (d : gmap string bytes) :
  default [] (patch k want d !! k) = want.
Proof. unfold patch. case_bool_decide; [done|]. by rewrite lookup_insert_eq. Qed.

Lemma patch_same k want (d : gmap string bytes) :
  default [] (d !! k) = want -> patch k want d = d.
Proof. intros E. unfold patch. by rewrite bool_decide_eq_true_2. Qed.

(** ** Writes *)

(** An [Update] leaves its call in the trace; it replaces the stored object
    when it succeeds and changes nothing when it fails. *)
Lemma Update_frame obj w e w' :
  Update obj w = (e, w') ->
  events w' = events w ++ [CallUpdate obj] /\ clusters w' = clusters w /\
  faults w' = tail (faults w) /\
  store w' = (if e is None then <[key_of obj := obj]> (store w) else store w).
Proof.
  unfold Update, bind, emit, take_fault, read_store, write_store, ret. simpl.
  destruct (faults w) as [|[f|] fs]; simpl;
    destruct (store w !! key_of obj); simpl; intros [= <- <-]; simpl; auto.
Qed.

(** The store accepts an update of an object it holds when no failure is
    scripted for the call. *)
Lemma Update_accepted obj w old :
  store w !! key_of obj = Some old ->
  (forall e, head (faults w) <> Some (Some e)) ->
  (Update obj w).1 = None.
Proof.
  intros Hk Hf.
  unfold Update, bind, emit, take_fault, read_store, write_store, ret. simpl.
  destruct (faults w) as [|[f|] fs]; simpl; rewrite ?Hk; simpl; try done.
  by destruct (Hf f).
Qed.

Lemma Create_frame obj w e w' :
  Create obj w = (e, w') ->
  events w' = events w ++ [CallCreate obj] /\ clusters w' = clusters w /\
  faults w' = tail (faults w) /\
  store w' = (if e is None then <[key_of obj := obj]> (store w) else store w).
Proof.
  unfold Create, bind, emit, take_fault, read_store, write_store, ret. simpl.
  destruct (faults w) as [|[f|] fs]; simpl;
    destruct (store w !! key_of obj); simpl; intros [= <- <-]; simpl; auto.
Qed.

Lemma Create_accepted obj w :
  store w !! key_of obj = None ->
  (forall e, head (faults w) <> Some (Some e)) ->
  (Create obj w).1 = None.
Proof.
  intros Hk Hf.
  unfold Create, bind, emit, take_fault, read_store, write_store, ret. simpl.
  destruct (faults w) as [|[f|] fs]; simpl; rewrite ?Hk; simpl; try done.
  by destruct (Hf f).
Qed.

(** With no failure scripted, the calls are functions of the store. *)
Lemma Get_no_faults key w :
  faults w = [] ->
  Get key w =
  (match store w !! key with Some s => inr s | None => inl StatusNotFound end,
   logged w [CallGet key]).
Proof.
  intros Hf. unfold Get, bind, emit, take_fault, read_store, ret, logged. simpl.
  rewrite Hf. simpl. destruct (store w !! key); by rewrite <- Hf.
Qed.


Lemma Update_no_faults obj w old :
  faults w = [] ->
  store w !! key_of obj = Some old ->
  Update obj w =
  (None, mkWorld (<[key_of obj := obj]> (store w)) [] (clusters w)
                 (events w ++ [CallUpdate obj])).
Proof.
  intros Hf Hk.
  unfold Update, bind, emit, take_fault, read_store, write_store, ret. simpl.
  rewrite Hf. simpl. by rewrite Hk.
Qed.

(** ** [init] *)

(** X1. The registry namespace is never empty: it is the value of
    ARGOCD_NAMESPACE when that is set to something, and "argocd" when it is
    unset or empty. *)
Theorem init_namespace_is_never_empty (Getenv : string -> string) :
  ArgoNamespace (init Getenv) <> "" /\
  (Getenv "ARGOCD_NAMESPACE" <> "" ->
   ArgoNamespace (init Getenv) = Getenv "ARGOCD_NAMESPACE") /\
  (Getenv "ARGOCD_NAMESPACE" = "" -> ArgoNamespace (init Getenv) = "argocd").
Proof.
  unfold init. simpl. case_bool_decide as E; repeat split; try done.
Qed.


(** ** The pass, for every implementation of the helpers *)

Section ReconcilerProperties.
Context `{pkg : Package}.

Ltac run_pass :=
  unfold Reconcile, sync_argo_secret, reconcile_existing, fetch_and_transform,
    GetClusterFromMetadata, Create, Update, Get, log_Info, log_Error,
    bind, emit, take_fault, read_store, write_store, ret in *.

Ltac find_update Hin :=
  repeat (apply elem_of_cons in Hin as [Hin|Hin];
          [first [discriminate Hin | by injection Hin as ->]|]);
  by apply elem_of_nil in Hin.

Ltac close_events :=
  simpl; rewrite <- ?app_assoc; simpl;
  eexists; split; [reflexivity | unfold no_writes; repeat constructor].

(** Lines 47-96 issue reads only. *)
Lemma fetch_and_transform_frame req w x w' :
  fetch_and_transform req w = (x, w') ->
  store w' = store w /\ clusters w' = clusters w /\
  exists evs, events w' = events w ++ evs /\ no_writes evs.
Proof.
  run_pass. intros E.
  repeat (case_match; simplify_eq; simpl in * );
    (split; [reflexivity|]); (split; [reflexivity|]);
    try close_events.
  all: exists []; rewrite app_nil_r; split; [reflexivity | constructor].
Qed.

(** *** The field diff of lines 140-154 *)

(** On a record with a data map, [sync_field] is a patch of that map. *)
Lemma sync_field_patch k want s changed d :
  Data s = Some d ->
  sync_field k want (s, changed) =
  Some (with_data s (Some (patch k want d)),
        changed || negb (bool_decide (default [] (d !! k) = want))).
Proof.
  intros Hd. unfold sync_field, bytes_Equal, patch, GoMap.get, GoMap.set. simpl.
  rewrite Hd. case_bool_decide; simpl.
  - rewrite orb_false_r. destruct s. simpl in *. by subst.
  - by rewrite orb_true_r.
Qed.

(** Without a data map nothing can be stored: a field that differs panics. *)
Lemma sync_field_nil k want s changed :
  Data s = None ->
  sync_field k want (s, changed) = if bool_decide (want = []) then Some (s, changed) else None.
Proof.
  intros Hd. unfold sync_field, bytes_Equal, GoMap.get, GoMap.set. simpl.
  rewrite Hd. repeat case_bool_decide; simpl; congruence.
Qed.

Lemma diff_fields_patch argoCluster argoSecret existingSecret d :
  Data existingSecret = Some d ->
  diff_fields argoCluster argoSecret existingSecret =
  Some (with_data existingSecret (Some (patched argoCluster argoSecret d)),
        negb (in_sync argoCluster argoSecret d)).
Proof.
  intros Hd. unfold diff_fields, patched, in_sync.
  rewrite (sync_field_patch _ _ _ _ d Hd). simpl.
  erewrite sync_field_patch by (simpl; reflexivity). simpl.
  erewrite sync_field_patch by (simpl; reflexivity). simpl.
  do 2 f_equal.
  rewrite !patch_lookup_ne by done.
  by repeat case_bool_decide.
Qed.

Lemma diff_fields_nil argoCluster argoSecret existingSecret :
  Data existingSecret = None ->
  diff_fields argoCluster argoSecret existingSecret =
  if wants_nothing argoCluster argoSecret then Some (existingSecret, false) else None.
Proof.
  intros Hd. unfold diff_fields, wants_nothing.
  rewrite (sync_field_nil _ _ _ _ Hd).
  case_bool_decide; simpl; [|done].
  rewrite (sync_field_nil _ _ _ _ Hd).
  case_bool_decide; simpl; [|done].
  rewrite (sync_field_nil _ _ _ _ Hd).
  by case_bool_decide.
Qed.

(** The three blocks touch nothing but the keys they are about, and a key
    whose bytes are already right keeps its entry. *)
Lemma patched_lookup_other argoCluster argoSecret d k :
  k ∉ ["name"; "server"; "config"] ->
  patched argoCluster argoSecret d !! k = d !! k.
Proof.
  intros Hk. unfold patched.
  rewrite !patch_lookup_ne; [done|..]; intros <-; apply Hk; set_solver.
Qed.

Lemma patched_name argoCluster argoSecret d :
  default [] (patched argoCluster argoSecret d !! "name")
  = bytes_of_string (ClusterName argoCluster).
Proof. unfold patched. rewrite !patch_lookup_ne by done. apply patch_get. Qed.

Lemma patched_server argoCluster argoSecret d :
  default [] (patched argoCluster argoSecret d !! "server")
  = bytes_of_string (ClusterServer argoCluster).
Proof. unfold patched. rewrite !patch_lookup_ne by done. apply patch_get. Qed.

Lemma patched_config argoCluster argoSecret d :
  default [] (patched argoCluster argoSecret d !! "config")
  = GoMap.get [] (Data argoSecret) "config".
Proof. unfold patched. apply patch_get. Qed.

Lemma patched_name_kept argoCluster argoSecret d :
  default [] (d !! "name") = bytes_of_string (ClusterName argoCluster) ->
  patched argoCluster argoSecret d !! "name" = d !! "name".
Proof.
  intros E. unfold patched. rewrite !patch_lookup_ne by done. by rewrite patch_same.
Qed.

Lemma patched_server_kept argoCluster argoSecret d :
  default [] (d !! "server") = bytes_of_string (ClusterServer argoCluster) ->
  patched argoCluster argoSecret d !! "server" = d !! "server".
Proof.
  intros E. unfold patched. rewrite !patch_lookup_ne by done.
  rewrite patch_same; [by rewrite patch_lookup_ne|by rewrite patch_lookup_ne].
Qed.

Lemma patched_config_kept argoCluster argoSecret d :
  default [] (d !! "config") = GoMap.get [] (Data argoSecret) "config" ->
  patched argoCluster argoSecret d !! "config" = d !! "config".
Proof.
  intros E. unfold patched.
  rewrite patch_same; by rewrite !patch_lookup_ne.
Qed.

Lemma patched_in_sync argoCluster argoSecret d :
  in_sync argoCluster argoSecret d = true -> patched argoCluster argoSecret d = d.
Proof.
  unfold in_sync, patched. intros E.
  apply andb_prop in E as [E Ec]. apply andb_prop in E as [En Es].
  apply bool_decide_eq_true in En, Es, Ec.
  rewrite (patch_same "name") by done.
  rewrite (patch_same "server") by done.
  by rewrite patch_same.
Qed.

(** *** [case true] of the switch *)

Lemma reconcile_existing_in_sync argoCluster argoSecret existingSecret existingSecret' w :
  ValidateObjectOwner existingSecret = None ->
  diff_fields argoCluster argoSecret existingSecret = Some (existingSecret', false) ->
  reconcile_existing argoCluster argoSecret existingSecret w =
  (Return None,
   logged w [LogInfo "Checking if ArgoSecret is managed by the Controller";
             LogInfo "Checking if ArgoSecret is out-of-sync with";
             LogInfo "ArgoSecret is in-sync with CapiCluster, skipping.."]).
Proof.
  intros Ho Hd. run_pass. rewrite Ho, Hd. unfold logged. simpl.
  by rewrite <- !app_assoc.
Qed.

Lemma reconcile_existing_panics argoCluster argoSecret existingSecret w :
  ValidateObjectOwner existingSecret = None ->
  diff_fields argoCluster argoSecret existingSecret = None ->
  reconcile_existing argoCluster argoSecret existingSecret w =
  (Panic "assignment to entry in nil map",
   logged w [LogInfo "Checking if ArgoSecret is managed by the Controller";
             LogInfo "Checking if ArgoSecret is out-of-sync with"]).
Proof.
  intros Ho Hd. run_pass. rewrite Ho, Hd. unfold logged. simpl.
  by rewrite <- !app_assoc.
Qed.

Lemma reconcile_existing_updates argoCluster argoSecret existingSecret existingSecret' w :
  ValidateObjectOwner existingSecret = None ->
  diff_fields argoCluster argoSecret existingSecret = Some (existingSecret', true) ->
  reconcile_existing argoCluster argoSecret existingSecret w =
  let '(e, w') :=
    Update existingSecret'
      (logged w [LogInfo "Checking if ArgoSecret is managed by the Controller";
                 LogInfo "Checking if ArgoSecret is out-of-sync with";
                 LogInfo "Updating out-of-sync ArgoSecret"]) in
  match e with
  | Some err => (Return (Some err), logged w' [LogError "Failed to update ArgoSecret"])
  | None => (Return None, logged w' [LogInfo "Updated successfully of ArgoSecret"])
  end.
Proof.
  intros Ho Hd. unfold reconcile_existing. rewrite Ho, Hd.
  unfold bind, log_Info, log_Error, emit, ret, logged. simpl.
  rewrite <- !app_assoc. simpl.
  destruct (Update _ _) as [[err|] w']; reflexivity.
Qed.

(** Diff-and-Apply on an owned record that has a data map, the three fields
    equal: no write, outcome InSync. *)
Lemma diff_and_apply_in_sync argoCluster argoSecret existingSecret d w :
  ValidateObjectOwner existingSecret = None ->
  Data existingSecret = Some d ->
  in_sync argoCluster argoSecret d = true ->
  exists w',
    reconcile_existing argoCluster argoSecret existingSecret w = (Return None, w') /\
    store w' = store w /\
    no_writes (pass_events w w') /\
    outcome (Return None) (pass_events w w') = InSync.
Proof.
  intros Ho Hd Hs. eexists. split.
  - eapply reconcile_existing_in_sync; [done|].
    rewrite (diff_fields_patch _ _ _ _ Hd), Hs. reflexivity.
  - split; [done|]. erewrite pass_events_app by reflexivity.
    split; [unfold no_writes; repeat constructor | reflexivity].
Qed.

(** Diff-and-Apply on an owned record that has a data map, some field
    different: exactly one write, the update of the existing record with the
    patched data map; when the store takes it, the outcome is Updated and the
    stored record is the patched one; when it does not, the error is returned
    and the store is as before. *)
Lemma diff_and_apply_update argoCluster argoSecret existingSecret d w :
  ValidateObjectOwner existingSecret = None ->
  Data existingSecret = Some d ->
  in_sync argoCluster argoSecret d = false ->
  let upd := with_data existingSecret (Some (patched argoCluster argoSecret d)) in
  exists r w',
    reconcile_existing argoCluster argoSecret existingSecret w = (r, w') /\
    List.filter is_write (pass_events w w') = [CallUpdate upd] /\
    (r = Return None /\ outcome r (pass_events w w') = Updated /\
       store w' = <[key_of existingSecret := upd]> (store w)
     \/ (exists err, r = Return (Some err)) /\ store w' = store w) /\
    (forall old, store w !! key_of existingSecret = Some old ->
                 (forall e, head (faults w) <> Some (Some e)) ->
                 r = Return None).
Proof.
  intros Ho Hd Hs upd.
  rewrite (reconcile_existing_updates _ _ _ upd) by
    (by rewrite ?(diff_fields_patch _ _ _ _ Hd), ?Hs).
  set (w1 := logged w _).
  destruct (Update upd w1) as [e w2] eqn:Hu.
  destruct (Update_frame _ _ _ _ Hu) as (Hev & _ & _ & Hst).
  assert (key_of upd = key_of existingSecret) as Hk by reflexivity.
  destruct e as [err|]; eexists _, _; (split; [reflexivity|]).
  - erewrite pass_events_app by
      (simpl; rewrite Hev; unfold w1; simpl; rewrite <- !app_assoc; reflexivity).
    split; [reflexivity|]. split.
    + right. split; [by eexists | simpl; by rewrite Hst].
    + intros old Hold Hf.
      pose proof (Update_accepted upd w1 old) as Ha.
      rewrite Hu in Ha. simpl in Ha. rewrite Hk in Ha. by discriminate Ha.
  - erewrite pass_events_app by
      (simpl; rewrite Hev; unfold w1; simpl; rewrite <- !app_assoc; reflexivity).
    split; [reflexivity|]. split; [|done].
    left. split; [done|]. split; [reflexivity|]. simpl. by rewrite Hst, Hk.
Qed.

(** C4. Diff-and-Apply on an owned existing record whose data map is nil:
    as soon as one of the three fields differs, the store into the nil map
    panics; no update is issued and nothing is returned.  (With a data map,
    [diff_and_apply_in_sync] and [diff_and_apply_update] give what the claim
    says.) *)
Theorem diff_and_apply_nil_data_panics argoCluster argoSecret existingSecret w :
  ValidateObjectOwner existingSecret = None ->
  Data existingSecret = None ->
  wants_nothing argoCluster argoSecret = false ->
  exists w',
    reconcile_existing argoCluster argoSecret existingSecret w
    = (Panic "assignment to entry in nil map", w') /\
    store w' = store w /\
    no_writes (pass_events w w').
Proof.
  intros Ho Hd Hw. eexists. split.
  - apply reconcile_existing_panics; [done|].
    by rewrite (diff_fields_nil _ _ _ Hd), Hw.
  - split; [done|]. erewrite pass_events_app by reflexivity.
    unfold no_writes. repeat constructor.
Qed.

(** The ownership guard answers NotOwned: the record is left alone. *)
Lemma reconcile_existing_not_owned argoCluster argoSecret existingSecret w e :
  ValidateObjectOwner existingSecret = Some e ->
  reconcile_existing argoCluster argoSecret existingSecret w =
  (Return None,
   mkWorld (store w) (faults w) (clusters w)
     (events w ++ [LogInfo "Checking if ArgoSecret is managed by the Controller";
                   LogInfo "Not managed by Controller, skipping.."])).
Proof.
  intros E. run_pass. rewrite E. simpl. by rewrite <- app_assoc.
Qed.

(** Lines 98-170 only add to the trace. *)
Lemma sync_argo_secret_events argoCluster argoSecret w r w' :
  sync_argo_secret argoCluster argoSecret w = (r, w') ->
  exists evs, events w' = events w ++ evs.
Proof.
  run_pass. intros E.
  repeat (case_match; simplify_eq; simpl in * ); rewrite <- ?app_assoc; by eexists.
Qed.

(** Every update that lines 98-170 issue carries the record found under the
    target name, with the patched data map. *)
Lemma sync_argo_secret_update argoCluster argoSecret w r w' obj :
  sync_argo_secret argoCluster argoSecret w = (r, w') ->
  CallUpdate obj ∈ pass_events w w' ->
  exists existingSecret d,
    store w !! ArgoNamespacedName argoCluster = Some existingSecret /\
    ValidateObjectOwner existingSecret = None /\
    Data existingSecret = Some d /\
    obj = with_data existingSecret (Some (patched argoCluster argoSecret d)).
Proof.
  unfold sync_argo_secret, bind.
  destruct (Get _ w) as [[err|ex] w1] eqn:Hget.
  - destruct (Get_frame _ _ _ _ Hget) as (_ & _ & Hev1 & _).
    destruct (IsNotFound err).
    + unfold log_Info, log_Error, emit, ret; simpl.
      destruct (Create _ _) as [[e|] w2] eqn:Hc;
        destruct (Create_frame _ _ _ _ Hc) as (Hev2 & _);
        simpl in Hev2; intros [= <- <-] Hin;
        (erewrite pass_events_app in Hin by
           (simpl; rewrite Hev2, Hev1, <- !app_assoc; reflexivity));
        find_update Hin.
    + unfold log_Info, log_Error, bind, emit, ret; simpl. intros [= <- <-] Hin.
      erewrite pass_events_app in Hin by
          (simpl; rewrite Hev1, <- !app_assoc; reflexivity).
      find_update Hin.
  - destruct (Get_frame _ _ _ _ Hget) as (_ & _ & Hev1 & _).
    pose proof (Get_found _ _ _ _ Hget) as Hfound.
    unfold log_Info at 1. unfold emit at 1.
    destruct (ValidateObjectOwner ex) as [e|] eqn:Ho.
    { rewrite (reconcile_existing_not_owned _ _ _ _ e Ho). intros [= <- <-] Hin.
      erewrite pass_events_app in Hin by
          (simpl; rewrite Hev1, <- !app_assoc; reflexivity).
      find_update Hin. }
    destruct (Data ex) as [d|] eqn:Hd.
    + destruct (in_sync argoCluster argoSecret d) eqn:Hs.
      * erewrite reconcile_existing_in_sync by
            (by rewrite ?(diff_fields_patch _ _ _ _ Hd), ?Hs).
        intros [= <- <-] Hin.
        erewrite pass_events_app in Hin by
            (simpl; rewrite Hev1, <- !app_assoc; reflexivity).
        find_update Hin.
      * erewrite reconcile_existing_updates by
            (by rewrite ?(diff_fields_patch _ _ _ _ Hd), ?Hs).
        destruct (Update _ _) as [e w2] eqn:Hu.
        destruct (Update_frame _ _ _ _ Hu) as (Hev2 & _). simpl in Hev2.
        destruct e; intros [= <- <-] Hin;
          (erewrite pass_events_app in Hin by
             (simpl; rewrite Hev2, Hev1, <- !app_assoc; reflexivity));
          exists ex, d; repeat (split; [done|]);
          find_update Hin.
    + destruct (wants_nothing argoCluster argoSecret) eqn:Hw.
      * erewrite reconcile_existing_in_sync by
            (by rewrite ?(diff_fields_nil _ _ _ Hd), ?Hw).
        intros [= <- <-] Hin.
        erewrite pass_events_app in Hin by
            (simpl; rewrite Hev1, <- !app_assoc; reflexivity).
        find_update Hin.
      * erewrite reconcile_existing_panics by
            (by rewrite ?(diff_fields_nil _ _ _ Hd), ?Hw).
        intros [= <- <-] Hin.
        erewrite pass_events_app in Hin by
            (simpl; rewrite Hev1, <- !app_assoc; reflexivity).
        find_update Hin.
Qed.

(** C9. Frame of the update path: whatever update a pass issues carries the
    record fetched from the store with its metadata (name, namespace, labels
    and the rest) and its type unchanged, and with a data map in which every
    key other than name, server and config has exactly the entry it had. *)
Theorem update_frame req w r w' obj :
  Reconcile req w = (r, w') ->
  CallUpdate obj ∈ pass_events w w' ->
  exists key existingSecret d d',
    store w !! key = Some existingSecret /\
    SecretMeta obj = SecretMeta existingSecret /\
    Type_ obj = Type_ existingSecret /\
    Data existingSecret = Some d /\
    Data obj = Some d' /\
    forall k, k ∉ ["name"; "server"; "config"] -> d' !! k = d !! k.
Proof.
  unfold Reconcile, bind.
  destruct (fetch_and_transform req w) as [[ret0|[a s]] w1] eqn:Hft;
    destruct (fetch_and_transform_frame _ _ _ _ Hft) as (Hs1 & _ & evs & Hev1 & Hnw).
  - intros [= <- <-] Hin. rewrite (pass_events_app _ _ _ Hev1) in Hin.
    unfold no_writes in Hnw. rewrite Forall_forall in Hnw.
    by apply Hnw in Hin.
  - destruct (sync_argo_secret a s w1) as [r2 w2] eqn:Hsync.
    intros [= <- <-] Hin.
    destruct (sync_argo_secret_events _ _ _ _ _ Hsync) as [tl Htl].
    assert (CallUpdate obj ∈ pass_events w1 w2) as Hin2.
    { rewrite (pass_events_app w w2 (evs ++ tl)) in Hin
        by (by rewrite Htl, Hev1, app_assoc).
      rewrite (pass_events_app _ _ _ Htl).
      apply elem_of_app in Hin as [Hin|Hin]; [|done].
      unfold no_writes in Hnw. rewrite Forall_forall in Hnw.
      by apply Hnw in Hin. }
    destruct (sync_argo_secret_update _ _ _ _ _ _ Hsync Hin2)
      as (ex & d & Hfound & _ & Hd & ->).
    exists (ArgoNamespacedName a), ex, d, (patched a s d).
    rewrite <- Hs1. repeat (split; [done|]).
    intros k Hk. by apply patched_lookup_other.
Qed.

(** *** The transformer and two passes in a row *)



(** The transformed record depends on the credential record, the next
    scripted failure and the cluster lookup only. *)
Lemma fetch_and_transform_result req w w2 :
  store w2 !! req = store w !! req ->
  faults w2 = faults w ->
  clusters w2 = clusters w ->
  (fetch_and_transform req w2).1 = (fetch_and_transform req w).1.
Proof.
  intros Hs Hf Hc. run_pass.
  destruct (ValidateCapiNaming req); simpl; [|done].
  rewrite Hf. destruct (faults w) as [|[e|] fs]; simpl; rewrite ?Hs, ?Hc; [|done|].
  all: destruct (store w !! req) as [capiSecret|]; simpl; [|done].
  all: destruct (ValidateCapiSecret capiSecret); simpl; [done|].
  all: destruct (clusters w (SecretMeta capiSecret)); simpl; [done|].
  all: destruct (Unmarshal capiSecret); simpl; [done|].
  all: destruct (ConvertToSecret _); simpl; [done|].
  all: by destruct (set_class _ _).
Qed.

Lemma fetch_and_transform_found req w a s w1 :
  faults w = [] ->
  fetch_and_transform req w = (inr (a, s), w1) ->
  is_Some (store w !! req) /\ faults w1 = [].
Proof.
  intros Hf. run_pass.
  destruct (ValidateCapiNaming req); simpl; [|done].
  rewrite Hf. simpl.
  destruct (store w !! req) as [capiSecret|]; simpl; [|done].
  intros E. split; [by eexists|].
  repeat (case_match; simplify_eq; simpl in * ); done.
Qed.

Lemma no_writes_filter evs : no_writes evs -> List.filter is_write evs = [].
Proof.
  induction 1 as [|e evs He _ IH]; [done|]. simpl. by rewrite He.
Qed.


(** C1. Ownership safety: in every pass that finds an existing ArgoSecret
    whose labels lack the managed-by marker, [Reconcile] returns a nil error,
    issues neither a create nor an update, and leaves the store, and with it
    the existing record, exactly as it was, whatever the freshly transformed
    record looks like. *)
Theorem ownership_safety req w argoCluster argoSecret w1 existingSecret w2 e :
  fetch_and_transform req w = (inr (argoCluster, argoSecret), w1) ->
  Get (ArgoNamespacedName argoCluster) w1 = (inr existingSecret, w2) ->
  ValidateObjectOwner existingSecret = Some e ->
  exists w',
    Reconcile req w = (Return None, w') /\
    store w' = store w /\
    store w' !! ArgoNamespacedName argoCluster = Some existingSecret /\
    no_writes (pass_events w w') /\
    outcome (Return None) (pass_events w w') = Skipped.
Proof.
  intros Hft Hget Hown.
  destruct (fetch_and_transform_frame _ _ _ _ Hft) as (Hs1 & _ & evs & Hev1 & Hnw).
  destruct (Get_frame _ _ _ _ Hget) as (Hs2 & _ & Hev2 & _).
  pose proof (Get_found _ _ _ _ Hget) as Hfound.
  eexists. split.
  - unfold Reconcile, bind. rewrite Hft. unfold sync_argo_secret, bind.
    rewrite Hget. unfold log_Info at 1. unfold emit at 1.
    by rewrite (reconcile_existing_not_owned _ _ _ _ e Hown).
  - simpl. rewrite Hs2, Hs1. split; [done|]. split; [by rewrite <- Hs1|].
    rewrite Hev2, Hev1, <- !app_assoc.
    erewrite pass_events_app by (simpl; reflexivity).
    split.
    + apply Forall_app. split; [done|]. unfold no_writes. repeat constructor.
    + unfold outcome. rewrite last_app. reflexivity.
Qed.

(** C8. When the fetch of the credential record answers NotFound, the pass
    returns a nil error, which is not retried, after that one read: the store
    is unchanged and no other call is made. *)
Theorem missing_credential_is_success req w err w1 :
  ValidateCapiNaming req = true ->
  Get req w = (inl err, w1) ->
  IsNotFound err = true ->
  Reconcile req w = (Return None, w1) /\
  retried (Return None) = false /\
  store w1 = store w /\
  pass_events w w1 = [CallGet req].
Proof.
  intros Hname Hget Hnf.
  destruct (Get_frame _ _ _ _ Hget) as (Hs & _ & Hev & _).
  split; [|split; [done|split; [done|by apply pass_events_app]]].
  unfold Reconcile, fetch_and_transform, bind. rewrite Hname. simpl.
  rewrite Hget. unfold ret, IgnoreNotFound. by rewrite Hnf.
Qed.

(** A request whose name the validator turns down ends the pass at once. *)
Lemma invalid_name_returns_at_once req w :
  ValidateCapiNaming req = false ->
  Reconcile req w = (Return None, w).
Proof.
  intros Hn. unfold Reconcile, fetch_and_transform, bind. by rewrite Hn.
Qed.

(** A credential record the validator turns down: its error is returned
    after the one read. *)
Lemma invalid_secret_returns_error req w capiSecret w1 err :
  ValidateCapiNaming req = true ->
  Get req w = (inr capiSecret, w1) ->
  ValidateCapiSecret capiSecret = Some err ->
  Reconcile req w =
  (Return (Some err),
   logged w1 [LogInfo "Fetched CapiSecret";
              LogInfo "Ignoring secret as it's missing proper CAPI type"]).
Proof.
  intros Hn Hget Hv. unfold Reconcile, fetch_and_transform, bind.
  rewrite Hn. simpl. rewrite Hget. unfold log_Info, emit, ret, logged. simpl.
  rewrite Hv. simpl. by rewrite <- app_assoc.
Qed.


(** *** The whole pass: calls, writes and the store *)

Ltac close_trace :=
  simpl; rewrite <- ?app_assoc; simpl;
  eexists; split; [reflexivity|];
  split; [unfold no_writes; repeat constructor | simpl; lia].

(** Lines 47-96 make at most two calls, both reads. *)
Lemma fetch_and_transform_calls req w x w' :
  fetch_and_transform req w = (x, w') ->
  exists evs, events w' = events w ++ evs /\ no_writes evs /\
              length (List.filter is_client_call evs) <= 2.
Proof.
  run_pass. intros E.
  repeat (case_match; simplify_eq; simpl in * ); try close_trace.
  all: exists []; rewrite app_nil_r; split; [reflexivity|];
    split; [constructor | simpl; lia].
Qed.

(** Lines 47-96 panic only at line 95, on a transformed record without a
    labels map. *)
Lemma fetch_and_transform_panics req w msg w' :
  fetch_and_transform req w = (inl (Panic msg), w') ->
  exists capiSecret cluster topo capiCluster s0,
    store w !! req = Some capiSecret /\
    clusters w (SecretMeta capiSecret) = inr cluster /\
    SpecTopology cluster = Some topo /\
    Unmarshal capiSecret = inr capiCluster /\
    ConvertToSecret (NewArgoCluster capiCluster capiSecret) = inr s0 /\
    Labels (SecretMeta s0) = None.
Proof.
  run_pass. intros E.
  repeat (case_match; simplify_eq; simpl in * ).
  all: match goal with Hs : set_class ?c ?s0 = None |- _ =>
         unfold set_class, GoMap.set in Hs;
         destruct (SpecTopology c) as [topo|] eqn:Ht; [|done];
         destruct (Labels (SecretMeta s0)) eqn:Hl; [done|] end.
  all: by eexists _, _, _, _, _.
Qed.

Lemma Create_accepted_absent obj w w' :
  Create obj w = (None, w') -> store w !! key_of obj = None.
Proof.
  unfold Create, bind, emit, take_fault, read_store, write_store, ret. simpl.
  destruct (faults w) as [|[f|] fs]; simpl;
    destruct (store w !! key_of obj); simpl; by intros [= ].
Qed.

(** Lines 98-170, by what they write. *)
Lemma sync_argo_secret_cases argoCluster argoSecret w r w' :
  sync_argo_secret argoCluster argoSecret w = (r, w') ->
  exists evs,
    events w' = events w ++ evs /\
    length (List.filter is_client_call evs) <= 2 /\
    ((List.filter is_write evs = [] /\ store w' = store w /\
      (forall msg, r = Panic msg ->
         exists ex, store w !! ArgoNamespacedName argoCluster = Some ex /\
                    ValidateObjectOwner ex = None /\ Data ex = None))
     \/ (List.filter is_write evs = [CallCreate argoSecret] /\
         (faults w = [] -> store w !! ArgoNamespacedName argoCluster = None) /\
         (r = Return None /\ store w !! key_of argoSecret = None /\
            store w' = <[key_of argoSecret := argoSecret]> (store w)
          \/ (exists err, r = Return (Some err)) /\ store w' = store w))
     \/ (exists ex d,
           store w !! ArgoNamespacedName argoCluster = Some ex /\
           ValidateObjectOwner ex = None /\
           Data ex = Some d /\
           in_sync argoCluster argoSecret d = false /\
           List.filter is_write evs
           = [CallUpdate (with_data ex (Some (patched argoCluster argoSecret d)))] /\
           (r = Return None /\
              store w' = <[key_of ex := with_data ex (Some (patched argoCluster argoSecret d))]>
                           (store w)
            \/ (exists err, r = Return (Some err)) /\ store w' = store w))).
Proof.
  unfold sync_argo_secret, bind.
  destruct (Get _ w) as [[err|ex] w1] eqn:Hget.
  - destruct (Get_frame _ _ _ _ Hget) as (Hs1 & _ & Hev1 & _).
    destruct (IsNotFound err) eqn:Hnf.
    + unfold log_Info, log_Error, emit, ret; simpl.
      destruct (Create _ _) as [[e|] w2] eqn:Hc;
        destruct (Create_frame _ _ _ _ Hc) as (Hev2 & _ & _ & Hs2);
        simpl in Hev2, Hs2; intros [= <- <-];
        (eexists; split;
         [simpl; rewrite Hev2, Hev1, <- !app_assoc; reflexivity|]);
        (split; [simpl; lia|]); right; left;
        (split; [reflexivity|]).
      * split.
        { intros Hf. pose proof (Get_result (ArgoNamespacedName argoCluster) w) as R.
          rewrite Hget, Hf in R. simpl in R.
          destruct (store w !! ArgoNamespacedName argoCluster); [done|done]. }
        right. simpl. rewrite Hs2, Hs1. split; [by eexists|done].
      * split.
        { intros Hf. pose proof (Get_result (ArgoNamespacedName argoCluster) w) as R.
          rewrite Hget, Hf in R. simpl in R.
          destruct (store w !! ArgoNamespacedName argoCluster); [done|done]. }
        left. apply Create_accepted_absent in Hc. simpl in Hc.
        simpl. rewrite Hs2, Hs1. by rewrite Hs1 in Hc.
    + unfold log_Info, log_Error, bind, emit, ret; simpl. intros [= <- <-].
      eexists. split; [simpl; rewrite Hev1, <- !app_assoc; reflexivity|].
      split; [simpl; lia|]. left. simpl. by rewrite Hs1.
  - destruct (Get_frame _ _ _ _ Hget) as (Hs1 & _ & Hev1 & _).
    pose proof (Get_found _ _ _ _ Hget) as Hfound.
    unfold log_Info at 1. unfold emit at 1.
    destruct (ValidateObjectOwner ex) as [e|] eqn:Ho.
    { rewrite (reconcile_existing_not_owned _ _ _ _ e Ho). intros [= <- <-].
      eexists. split; [simpl; rewrite Hev1, <- !app_assoc; reflexivity|].
      split; [simpl; lia|]. left. simpl. by rewrite Hs1. }
    destruct (Data ex) as [d|] eqn:Hd.
    + destruct (in_sync argoCluster argoSecret d) eqn:Hs.
      * erewrite reconcile_existing_in_sync by
            (by rewrite ?(diff_fields_patch _ _ _ _ Hd), ?Hs).
        intros [= <- <-].
        eexists. split; [simpl; rewrite Hev1, <- !app_assoc; reflexivity|].
        split; [simpl; lia|]. left. simpl. by rewrite Hs1.
      * erewrite reconcile_existing_updates by
            (by rewrite ?(diff_fields_patch _ _ _ _ Hd), ?Hs).
        destruct (Update _ _) as [e w2] eqn:Hu.
        destruct (Update_frame _ _ _ _ Hu) as (Hev2 & _ & _ & Hs2).
        simpl in Hev2, Hs2.
        destruct e; intros [= <- <-];
          (eexists; split;
           [simpl; rewrite Hev2, Hev1, <- !app_assoc; reflexivity|]);
          (split; [simpl; lia|]); right; right; exists ex, d;
          repeat (split; [done|]); simpl; rewrite Hs2, Hs1.
        -- right. split; [by eexists|done].
        -- by left.
    + destruct (wants_nothing argoCluster argoSecret) eqn:Hw.
      * erewrite reconcile_existing_in_sync by
            (by rewrite ?(diff_fields_nil _ _ _ Hd), ?Hw).
        intros [= <- <-].
        eexists. split; [simpl; rewrite Hev1, <- !app_assoc; reflexivity|].
        split; [simpl; lia|]. left. simpl. by rewrite Hs1.
      * erewrite reconcile_existing_panics by
            (by rewrite ?(diff_fields_nil _ _ _ Hd), ?Hw).
        intros [= <- <-].
        eexists. split; [simpl; rewrite Hev1, <- !app_assoc; reflexivity|].
        split; [simpl; lia|]. left. simpl. rewrite Hs1.
        repeat (split; [done|]). intros _ _. by exists ex.
Qed.

Lemma no_writes_elem evs e : no_writes evs -> e ∈ evs -> is_write e = false.
Proof. unfold no_writes. rewrite Forall_forall. auto. Qed.

(** The whole pass, by what it writes. *)
Lemma Reconcile_cases req w r w' :
  Reconcile req w = (r, w') ->
  exists evs,
    events w' = events w ++ evs /\
    length (List.filter is_client_call evs) <= 4 /\
    ((List.filter is_write evs = [] /\ store w' = store w /\
      (forall msg, r = Panic msg ->
         (exists capiSecret cluster topo capiCluster s0,
            store w !! req = Some capiSecret /\
            clusters w (SecretMeta capiSecret) = inr cluster /\
            SpecTopology cluster = Some topo /\
            Unmarshal capiSecret = inr capiCluster /\
            ConvertToSecret (NewArgoCluster capiCluster capiSecret) = inr s0 /\
            Labels (SecretMeta s0) = None)
         \/ (exists a s w1 ex,
               fetch_and_transform req w = (inr (a, s), w1) /\
               store w !! ArgoNamespacedName a = Some ex /\
               ValidateObjectOwner ex = None /\ Data ex = None)))
     \/ (exists a s w1,
           fetch_and_transform req w = (inr (a, s), w1) /\
           List.filter is_write evs = [CallCreate s] /\
           (faults w = [] -> store w !! ArgoNamespacedName a = None) /\
           (r = Return None /\ store w !! key_of s = None /\
              store w' = <[key_of s := s]> (store w)
            \/ (exists err, r = Return (Some err)) /\ store w' = store w))
     \/ (exists a s w1 ex d,
           fetch_and_transform req w = (inr (a, s), w1) /\
           store w !! ArgoNamespacedName a = Some ex /\
           ValidateObjectOwner ex = None /\
           Data ex = Some d /\
           in_sync a s d = false /\
           List.filter is_write evs = [CallUpdate (with_data ex (Some (patched a s d)))] /\
           (r = Return None /\
              store w' = <[key_of ex := with_data ex (Some (patched a s d))]> (store w)
            \/ (exists err, r = Return (Some err)) /\ store w' = store w))).
Proof.
  unfold Reconcile, bind.
  destruct (fetch_and_transform req w) as [[r0|[a s]] w1] eqn:Hft;
    destruct (fetch_and_transform_frame _ _ _ _ Hft) as (Hs1 & _ & _);
    destruct (fetch_and_transform_calls _ _ _ _ Hft) as (evs1 & Hev1 & Hnw1 & Hc1).
  - intros [= <- <-]. exists evs1. split; [done|]. split; [lia|].
    left. split; [by apply no_writes_filter|]. split; [done|].
    intros msg ->. left. by apply fetch_and_transform_panics in Hft.
  - intros Hsync.
    destruct (sync_argo_secret_cases _ _ _ _ _ Hsync)
      as (evs2 & Hev2 & Hc2 & Hcases).
    exists (evs1 ++ evs2). split; [by rewrite Hev2, Hev1, app_assoc|].
    rewrite !List.filter_app, (no_writes_filter _ Hnw1), length_app. simpl.
    split; [lia|].
    rewrite Hs1 in Hcases.
    destruct Hcases as [(Hw & Hst & Hp)|[(Hw & Habs & Hres)|(ex & d & Hcase)]].
    + left. repeat (split; [done|]). intros msg Hm. right.
      destruct (Hp msg Hm) as (ex & ? & ? & ?). by exists a, s, w1, ex.
    + right. left. exists a, s, w1. repeat (split; [done|]). split; [|done].
      intros Hf. apply Habs.
      by destruct (fetch_and_transform_found _ _ _ _ _ Hf Hft).
    + right. right. by exists a, s, w1, ex, d.
Qed.

(** X6. One pass makes at most four calls to the API server (the Get of the
    credential record, the cluster lookup, the Get of the registration record
    and one write) and at most one of them is a write. *)
Theorem pass_calls_are_bounded req w :
  let run := Reconcile req w in
  length (List.filter is_client_call (pass_events w run.2)) <= 4 /\
  length (List.filter is_write (pass_events w run.2)) <= 1.
Proof.
  simpl. destruct (Reconcile req w) as [r w'] eqn:Hrun. simpl.
  destruct (Reconcile_cases _ _ _ _ Hrun) as (evs & Hev & Hc & Hcases).
  rewrite (pass_events_app _ _ _ Hev). split; [done|].
  destruct Hcases as [(-> & _)|[(a & s & w1 & _ & -> & _)|(a & s & w1 & ex & d & Hcase)]];
    [simpl; lia..|].
  destruct Hcase as (_ & _ & _ & _ & _ & -> & _). simpl; lia.
Qed.

(** X7. The store after a pass is the store before it with the one write
    applied, and that only when the pass returned nil: a pass that returns an
    error or panics leaves the store exactly as it found it. *)
Theorem store_follows_the_write req w :
  let run := Reconcile req w in
  store run.2 = store_after (store w) run.1 (List.filter is_write (pass_events w run.2)).
Proof.
  simpl. destruct (Reconcile req w) as [r w'] eqn:Hrun. simpl.
  destruct (Reconcile_cases _ _ _ _ Hrun) as (evs & Hev & Hc & Hcases).
  rewrite (pass_events_app _ _ _ Hev).
  destruct Hcases as [(-> & -> & _)|[(a & s & w1 & _ & -> & _ & Hres)|
                                     (a & s & w1 & ex & d & Hcase)]].
  - by destruct r as [[?|]|].
  - destruct Hres as [(-> & _ & ->)|([err ->] & ->)]; reflexivity.
  - destruct Hcase as (_ & _ & _ & _ & _ & -> & Hres).
    destruct Hres as [(-> & ->)|([err ->] & ->)]; reflexivity.
Qed.

Lemma write_in_filter evs e :
  e ∈ evs -> is_write e = true -> e ∈ List.filter is_write evs.
Proof.
  intros Hin Hw. apply list_elem_of_In, List.filter_In.
  split; [by apply list_elem_of_In|done].
Qed.

(** X8. An update is only ever issued for a record that was found in the
    store carrying the managed-by marker; the update goes out under the
    record's own namespace and name and still carries the marker. *)
Theorem updates_only_owned_records req w obj :
  CallUpdate obj ∈ pass_events w (Reconcile req w).2 ->
  exists k ex,
    store w !! k = Some ex /\
    ValidateObjectOwner ex = None /\
    ValidateObjectOwner obj = None /\
    key_of obj = key_of ex.
Proof.
  destruct (Reconcile req w) as [r w'] eqn:Hrun. simpl.
  destruct (Reconcile_cases _ _ _ _ Hrun) as (evs & Hev & Hc & Hcases).
  rewrite (pass_events_app _ _ _ Hev). intros Hin.
  apply write_in_filter in Hin; [|done].
  destruct Hcases as [(Hw & _)|[(a & s & w1 & _ & Hw & _)|(a & s & w1 & ex & d & Hcase)]].
  - rewrite Hw in Hin. by apply elem_of_nil in Hin.
  - rewrite Hw in Hin. apply list_elem_of_singleton in Hin. discriminate Hin.
  - destruct Hcase as (_ & Hfound & Ho & _ & _ & Hw & _).
    rewrite Hw in Hin. apply list_elem_of_singleton in Hin. injection Hin as ->.
    by exists (ArgoNamespacedName a), ex.
Qed.

(** X9. With no failing call, a create is only ever issued when the store
    holds nothing under the registration name, and what is created is the
    transformed record as lines 47-96 left it. *)
Theorem creates_only_when_absent req w obj :
  faults w = [] ->
  CallCreate obj ∈ pass_events w (Reconcile req w).2 ->
  exists a w1,
    fetch_and_transform req w = (inr (a, obj), w1) /\
    store w !! ArgoNamespacedName a = None.
Proof.
  intros Hf. destruct (Reconcile req w) as [r w'] eqn:Hrun. simpl.
  destruct (Reconcile_cases _ _ _ _ Hrun) as (evs & Hev & Hc & Hcases).
  rewrite (pass_events_app _ _ _ Hev). intros Hin.
  apply write_in_filter in Hin; [|done].
  destruct Hcases as [(Hw & _)|[(a & s & w1 & Hft & Hw & Habs & _)|
                                (a & s & w1 & ex & d & Hcase)]].
  - rewrite Hw in Hin. by apply elem_of_nil in Hin.
  - rewrite Hw in Hin. apply list_elem_of_singleton in Hin. injection Hin as ->.
    exists a, w1. split; [done|by apply Habs].
  - destruct Hcase as (_ & _ & _ & _ & _ & Hw & _).
    rewrite Hw in Hin. apply list_elem_of_singleton in Hin. discriminate Hin.
Qed.

(** X10. In a store that keeps every object under its own name, no pass
    alters or removes a record that does not carry the managed-by marker,
    whichever request it runs for and however it ends. *)
Theorem unowned_records_are_untouched req w k s :
  well_keyed (store w) ->
  store w !! k = Some s ->
  ValidateObjectOwner s <> None ->
  store (Reconcile req w).2 !! k = Some s.
Proof.
  intros Hwk Hk Hno. destruct (Reconcile req w) as [r w'] eqn:Hrun. simpl.
  destruct (Reconcile_cases _ _ _ _ Hrun) as (evs & Hev & Hc & Hcases).
  destruct Hcases as [(_ & -> & _)|[(a & t & w1 & _ & _ & _ & Hres)|
                                    (a & t & w1 & ex & d & Hcase)]]; [done| |].
  - destruct Hres as [(_ & Habs & ->)|(_ & ->)]; [|done].
    rewrite lookup_insert_ne; [done|]. intros E. by rewrite E, Hk in Habs.
  - destruct Hcase as (_ & Hfound & Ho & _ & _ & _ & Hres).
    destruct Hres as [(_ & ->)|(_ & ->)]; [|done].
    rewrite lookup_insert_ne; [done|]. rewrite (Hwk _ _ Hfound).
    intros <-. by simplify_eq.
Qed.


(** X14. [Reconcile] panics in two situations only: the transformed record
    has no labels map while the cluster has a topology (line 95), or the
    existing registration record is owned and has no data map (lines
    142-152). *)
Theorem panics_only_on_nil_maps req w msg :
  (Reconcile req w).1 = Panic msg ->
  (exists capiSecret cluster topo capiCluster s0,
     store w !! req = Some capiSecret /\
     clusters w (SecretMeta capiSecret) = inr cluster /\
     SpecTopology cluster = Some topo /\
     Unmarshal capiSecret = inr capiCluster /\
     ConvertToSecret (NewArgoCluster capiCluster capiSecret) = inr s0 /\
     Labels (SecretMeta s0) = None)
  \/ (exists a s w1 ex,
        fetch_and_transform req w = (inr (a, s), w1) /\
        store w !! ArgoNamespacedName a = Some ex /\
        ValidateObjectOwner ex = None /\ Data ex = None).
Proof.
  destruct (Reconcile req w) as [r w'] eqn:Hrun. simpl. intros ->.
  destruct (Reconcile_cases _ _ _ _ Hrun) as (evs & Hev & Hc & Hcases).
  destruct Hcases as [(_ & _ & Hp)|[(a & t & w1 & _ & _ & _ & Hres)|
                                    (a & t & w1 & ex & d & Hcase)]].
  - by apply (Hp msg).
  - by destruct Hres as [(? & _)|([err ?] & _)].
  - destruct Hcase as (_ & _ & _ & _ & _ & _ & Hres).
    by destruct Hres as [(? & _)|([err ?] & _)].
Qed.

(** The patched data map has the three fields of the transformed record. *)
Lemma patched_is_in_sync argoCluster argoSecret d :
  in_sync argoCluster argoSecret (patched argoCluster argoSecret d) = true.
Proof.
  unfold in_sync.
  rewrite patched_name, patched_server, patched_config.
  by rewrite !bool_decide_eq_true_2.
Qed.

(** X12. Convergence: when a pass finds an owned registration record with a
    data map that is out of sync and no call fails, it updates the record
    (outcome Updated), and the next pass for the same credential record finds
    it in sync: no write, store unchanged (outcome InSync). *)
Theorem update_then_in_sync req w argoCluster argoSecret w1 ex d :
  faults w = [] ->
  fetch_and_transform req w = (inr (argoCluster, argoSecret), w1) ->
  store w !! ArgoNamespacedName argoCluster = Some ex ->
  key_of ex = ArgoNamespacedName argoCluster ->
  ArgoNamespacedName argoCluster <> req ->
  ValidateObjectOwner ex = None ->
  Data ex = Some d ->
  in_sync argoCluster argoSecret d = false ->
  let upd := with_data ex (Some (patched argoCluster argoSecret d)) in
  exists w' w'',
    Reconcile req w = (Return None, w') /\
    outcome (Return None) (pass_events w w') = Updated /\
    store w' = <[ArgoNamespacedName argoCluster := upd]> (store w) /\
    Reconcile req w' = (Return None, w'') /\
    outcome (Return None) (pass_events w' w'') = InSync /\
    no_writes (pass_events w' w'') /\
    store w'' = store w'.
Proof.
  intros Hf Hft Hfound Hk Hne Ho Hd Hs upd.
  destruct (fetch_and_transform_frame _ _ _ _ Hft) as (Hs1 & Hc1 & evs & Hev1 & Hnw).
  destruct (fetch_and_transform_found _ _ _ _ _ Hf Hft) as (Hreq & Hf1).
  assert (key_of upd = ArgoNamespacedName argoCluster) as Hku by done.
  set (w' := mkWorld (<[key_of upd := upd]> (store w1)) [] (clusters w1)
               (events w1 ++ [CallGet (ArgoNamespacedName argoCluster);
                              LogInfo "ArgoSecret exists, checking state..";
                              LogInfo "Checking if ArgoSecret is managed by the Controller";
                              LogInfo "Checking if ArgoSecret is out-of-sync with";
                              LogInfo "Updating out-of-sync ArgoSecret";
                              CallUpdate upd;
                              LogInfo "Updated successfully of ArgoSecret"])).
  assert (Reconcile req w = (Return None, w')) as Hrun1.
  { unfold Reconcile, bind. rewrite Hft. unfold sync_argo_secret, bind.
    rewrite (Get_no_faults _ _ Hf1), Hs1, Hfound.
    unfold log_Info at 1. unfold emit at 1.
    erewrite reconcile_existing_updates by
        (by rewrite ?(diff_fields_patch _ _ _ _ Hd), ?Hs).
    match goal with |- context [Update ?o ?W] =>
      assert (store W !! key_of o = Some ex) as Hold
        by (change (key_of o) with (key_of upd); rewrite Hku; simpl;
            rewrite Hs1; exact Hfound);
      rewrite (Update_no_faults o W ex Hf1 Hold)
    end.
    unfold w', logged. simpl. by rewrite <- !app_assoc. }
  destruct (fetch_and_transform req w') as [x w1'] eqn:Hft'.
  assert (x = inr (argoCluster, argoSecret)) as ->.
  { pose proof (fetch_and_transform_result req w w') as Hr.
    rewrite Hft, Hft' in Hr. simpl in Hr. apply Hr.
    - unfold w'. simpl. by rewrite Hku, lookup_insert_ne, Hs1.
    - by rewrite Hf.
    - done. }
  destruct (fetch_and_transform_frame _ _ _ _ Hft') as (Hs1' & _ & evs' & Hev1' & Hnw').
  destruct (fetch_and_transform_found req w' _ _ _ eq_refl Hft') as (_ & Hf1').
  assert (store w1' !! ArgoNamespacedName argoCluster = Some upd) as Hfound'.
  { rewrite Hs1'. unfold w'. simpl. by rewrite Hku, lookup_insert_eq. }
  eexists w', _. split; [exact Hrun1|].
  split.
  { erewrite pass_events_app by
        (unfold w'; simpl; rewrite Hev1, <- app_assoc; reflexivity).
    unfold outcome. by rewrite last_app. }
  split; [unfold w'; simpl; by rewrite Hku, Hs1|].
  split.
  { unfold Reconcile, bind. rewrite Hft'. unfold sync_argo_secret, bind.
    rewrite (Get_no_faults _ _ Hf1'), Hfound'.
    unfold log_Info at 1. unfold emit at 1.
    erewrite reconcile_existing_in_sync;
      [reflexivity | done |
       by rewrite (diff_fields_patch _ _ upd _ eq_refl), patched_is_in_sync]. }
  clearbody w'.
  erewrite pass_events_app by
      (simpl; rewrite Hev1', <- !app_assoc; simpl; reflexivity).
  split; [by unfold outcome; rewrite last_app|].
  split; [|done].
  apply Forall_app. split; [done|]. unfold no_writes. repeat constructor.
Qed.

(** X3. An error of the credential fetch other than NotFound is returned as
    it is, after that one read; nothing else is called and the store is
    unchanged. *)
Theorem fetch_error_is_returned req w err w1 :
  ValidateCapiNaming req = true ->
  Get req w = (inl err, w1) ->
  IsNotFound err = false ->
  Reconcile req w = (Return (Some err), w1) /\
  store w1 = store w /\
  pass_events w w1 = [CallGet req].
Proof.
  intros Hname Hget Hnf.
  destruct (Get_frame _ _ _ _ Hget) as (Hs & _ & Hev & _).
  split; [|split; [done|by apply pass_events_app]].
  unfold Reconcile, fetch_and_transform, bind. rewrite Hname. simpl.
  rewrite Hget. unfold ret, IgnoreNotFound. by rewrite Hnf.
Qed.

(** X4. An error of the transformer, from [Unmarshal] or from
    [ConvertToSecret], is returned as it is (not wrapped); the pass has then
    made its two reads and never looks the registration record up. *)
Theorem transformer_error_is_returned req w capiSecret w1 cluster err :
  ValidateCapiNaming req = true ->
  Get req w = (inr capiSecret, w1) ->
  ValidateCapiSecret capiSecret = None ->
  clusters w (SecretMeta capiSecret) = inr cluster ->
  (Unmarshal capiSecret = inl err \/
   exists capiCluster,
     Unmarshal capiSecret = inr capiCluster /\
     ConvertToSecret (NewArgoCluster capiCluster capiSecret) = inl err) ->
  exists w',
    Reconcile req w = (Return (Some err), w') /\
    store w' = store w /\
    List.filter is_client_call (pass_events w w')
    = [CallGet req; CallResolve (SecretMeta capiSecret)].
Proof.
  intros Hname Hget Hvalid Hcl Herr.
  destruct (Get_frame _ _ _ _ Hget) as (Hs1 & Hc1 & Hev1 & _).
  destruct Herr as [Hun|(c & Hun & Hconv)]; eexists; (split;
    [unfold Reconcile, fetch_and_transform, bind; rewrite Hname; simpl;
     rewrite Hget; unfold log_Info, log_Error, emit, GetClusterFromMetadata, bind, ret;
     simpl; rewrite Hvalid; simpl; rewrite Hc1, Hcl, Hun, ?Hconv; reflexivity|]);
    (split; [done|]);
    (erewrite pass_events_app by
        (simpl; rewrite Hev1, <- !app_assoc; simpl; reflexivity));
    reflexivity.
Qed.

(** X5. An error of the registration-record lookup other than NotFound is
    returned as it is; the pass neither creates nor updates. *)
Theorem lookup_error_is_returned req w argoCluster argoSecret w1 err w2 :
  fetch_and_transform req w = (inr (argoCluster, argoSecret), w1) ->
  Get (ArgoNamespacedName argoCluster) w1 = (inl err, w2) ->
  IsNotFound err = false ->
  exists w',
    Reconcile req w = (Return (Some err), w') /\
    store w' = store w /\
    no_writes (pass_events w w').
Proof.
  intros Hft Hget Hnf.
  destruct (fetch_and_transform_frame _ _ _ _ Hft) as (Hs1 & _ & evs & Hev1 & Hnw).
  destruct (Get_frame _ _ _ _ Hget) as (Hs2 & _ & Hev2 & _).
  eexists. split.
  - unfold Reconcile, bind. rewrite Hft. unfold sync_argo_secret, bind.
    rewrite Hget, Hnf. unfold log_Error, emit, ret. reflexivity.
  - simpl. rewrite Hs2, Hs1. split; [done|].
    erewrite pass_events_app by
        (simpl; rewrite Hev2, Hev1, <- !app_assoc; simpl; reflexivity).
    apply Forall_app. split; [done|]. unfold no_writes. repeat constructor.
Qed.

(** X13. When the resolved cluster has a topology, the record handed to the
    create/update stage is the one [ConvertToSecret] made with the label
    [class] set to the topology's class, an earlier [class] label overwritten
    and every other label, the name, the type and the data left alone. *)
Theorem class_label_is_set req w capiSecret w1 cluster topo capiCluster s0 g :
  ValidateCapiNaming req = true ->
  Get req w = (inr capiSecret, w1) ->
  ValidateCapiSecret capiSecret = None ->
  clusters w (SecretMeta capiSecret) = inr cluster ->
  SpecTopology cluster = Some topo ->
  Unmarshal capiSecret = inr capiCluster ->
  ConvertToSecret (NewArgoCluster capiCluster capiSecret) = inr s0 ->
  Labels (SecretMeta s0) = Some g ->
  exists argoSecret g' w2,
    fetch_and_transform req w
    = (inr (NewArgoCluster capiCluster capiSecret, argoSecret), w2) /\
    Labels (SecretMeta argoSecret) = Some g' /\
    g' !! "class" = Some (Class topo) /\
    (forall k, k <> "class" -> g' !! k = g !! k) /\
    key_of argoSecret = key_of s0 /\
    Type_ argoSecret = Type_ s0 /\
    Data argoSecret = Data s0.
Proof.
  intros Hname Hget Hvalid Hcl Htopo Hun Hconv Hl.
  destruct (Get_frame _ _ _ _ Hget) as (Hs1 & Hc1 & Hev1 & _).
  exists (with_labels s0 (Some (<["class" := Class topo]> g))),
         (<["class" := Class topo]> g).
  eexists. split.
  - unfold fetch_and_transform, bind. rewrite Hname. simpl.
    rewrite Hget. unfold log_Info, emit, GetClusterFromMetadata, bind, ret.
    simpl. rewrite Hvalid. simpl. rewrite Hc1, Hcl, Hun, Hconv.
    unfold set_class, GoMap.set. rewrite Htopo, Hl. reflexivity.
  - split; [done|]. split; [by rewrite lookup_insert_eq|].
    split; [|done]. intros k Hk. by rewrite lookup_insert_ne.
Qed.

End ReconcilerProperties.

(** ** The ownership guard *)

Lemma ValidateObjectOwner_owned s :
  ValidateObjectOwner s = None <->
  exists g, Labels (SecretMeta s) = Some g /\ g !! "capi-to-argocd/owned" = Some "true".
Proof.
  unfold ValidateObjectOwner, GoMap.get.
  destruct (Labels (SecretMeta s)) as [g|]; simpl.
  - destruct (g !! "capi-to-argocd/owned") as [v|] eqn:E; simpl.
    + case_bool_decide as Hv.
      * split; [done|]. intros (g' & [= <-] & E'). congruence.
      * split; [intros _|done]. exists g. split; [done|].
        destruct (decide (v = "true")) as [->|Hne]; [done|]. by destruct Hv.
    + split; [done|]. intros (g' & [= <-] & E'). congruence.
  - split; [done|]. by intros (g & ? & _).
Qed.

(** C10. The ownership guard accepts a record exactly when its labels map is
    there and holds "true" under "capi-to-argocd/owned"; for every other
    record (no labels map, no such key, any other value) it answers NotOwned,
    and the pass then returns nil without touching the store. *)
Theorem ownership_guard_exact `{pkg : Package} (s : Secret) :
  (ValidateObjectOwner s = None <->
   exists g, Labels (SecretMeta s) = Some g /\ g !! "capi-to-argocd/owned" = Some "true") /\
  (ValidateObjectOwner s <> None ->
   forall argoCluster argoSecret w,
   exists w',
     reconcile_existing argoCluster argoSecret s w = (Return None, w') /\
     store w' = store w /\
     no_writes (pass_events w w')).
Proof.
  split; [apply ValidateObjectOwner_owned|].
  intros Hno a t w. destruct (ValidateObjectOwner s) as [e|] eqn:Ho; [|done].
  eexists. split; [by apply (reconcile_existing_not_owned _ _ _ _ e)|].
  split; [done|]. erewrite pass_events_app by reflexivity.
  unfold no_writes. repeat constructor.
Qed.

(** ** The helpers of the specification *)

Module SpecModelProperties.
Import SpecModel.
Local Open Scope string_scope.

Lemma TrimSuffix_unfold s suffix :
  TrimSuffix s suffix =
  if String.eqb s suffix then Some ""
  else match s with
       | EmptyString => None
       | String c s' => String c <$> TrimSuffix s' suffix
       end.
Proof. by destruct s. Qed.

Lemma TrimSuffix_Some s suffix p :
  TrimSuffix s suffix = Some p -> s = p ++ suffix.
Proof.
  revert p. induction s as [|c s IH]; intros p; rewrite TrimSuffix_unfold.
  - destruct (String.eqb_spec "" suffix) as [<-|]; [by intros [= <-]|done].
  - destruct (String.eqb_spec (String c s) suffix) as [<-|]; [by intros [= <-]|].
    destruct (TrimSuffix s suffix) as [q|]; [|done].
    intros [= <-]. change (String c s = String c (q ++ suffix)).
    f_equal. by apply IH.
Qed.

Lemma length_append (a b : string) :
  String.length (a ++ b) = String.length a + String.length b.
Proof.
  induction a as [|c a IH]; [done|].
  change (S (String.length (a ++ b)) = S (String.length a + String.length b)).
  by rewrite IH.
Qed.

Lemma TrimSuffix_app p suffix : TrimSuffix (p ++ suffix) suffix = Some p.
Proof.
  induction p as [|c p IH]; rewrite TrimSuffix_unfold.
  - change ("" ++ suffix) with suffix. by rewrite String.eqb_refl.
  - destruct (String.eqb_spec (String c p ++ suffix) suffix) as [E|_].
    + apply (f_equal String.length) in E. rewrite length_append in E.
      simpl in E. lia.
    + change (String c p ++ suffix) with (String c (p ++ suffix)).
      simpl. by rewrite IH.
Qed.

(** The validator accepts exactly the names of the form
    [<clusterName>-kubeconfig] with a cluster name that is not empty. *)
Lemma ValidateCapiNaming_true n :
  ValidateCapiNaming n = true <->
  exists clusterName, clusterName <> "" /\ Name n = clusterName ++ "-kubeconfig".
Proof.
  unfold ValidateCapiNaming. split.
  - destruct (TrimSuffix (Name n) KubeconfigSuffix) as [p|] eqn:E; [|done].
    intros Hp. exists p. split.
    + intros ->. done.
    + by apply TrimSuffix_Some.
  - intros (p & Hp & ->). change "-kubeconfig" with KubeconfigSuffix.
    rewrite TrimSuffix_app. by destruct p.
Qed.

Section WithConfig.
Context (cfg : Config) `{codec : Codec}.

(** C2. A credential record whose type tag is not the expected constant:
    [Reconcile] returns the validation error, so the pass is a failure that
    the caller retries, not a skip; it writes nothing. *)
Theorem wrong_type_is_returned_as_error req w capiSecret w1 :
  ValidateCapiNaming req = true ->
  Get req w = (inr capiSecret, w1) ->
  Type_ capiSecret <> CapiSecretType ->
  exists w',
    Reconcile (pkg := package cfg) req w
    = (Return (Some (ErrorString "InvalidRecordKind")), w') /\
    outcome (Return (Some (ErrorString "InvalidRecordKind"))) (pass_events w w') = Failed /\
    retried (Return (Some (ErrorString "InvalidRecordKind"))) = true /\
    store w' = store w /\
    no_writes (pass_events w w').
Proof.
  intros Hn Hget Hty.
  destruct (Get_frame _ _ _ _ Hget) as (Hs1 & _ & Hev1 & _).
  eexists. split.
  - apply (invalid_secret_returns_error (pkg := package cfg) req w capiSecret w1);
      [done..|].
    simpl. unfold ValidateCapiSecret. by rewrite bool_decide_eq_true_2.
  - split; [done|]. split; [done|]. split; [done|].
    erewrite pass_events_app by
        (simpl; rewrite Hev1, <- !app_assoc; simpl; reflexivity).
    unfold no_writes. repeat constructor.
Qed.

(** C6. An event whose name is not [<clusterName>-kubeconfig] with a
    non-empty cluster name: [Reconcile] returns nil and the world is exactly
    as before, not a single client call made. *)
Theorem unmatched_name_is_skipped req w :
  ~ (exists clusterName, clusterName <> "" /\ Name req = clusterName ++ "-kubeconfig") ->
  Reconcile (pkg := package cfg) req w = (Return None, w) /\
  pass_events w w = [] /\
  outcome (Return None) (pass_events w w) = Skipped /\
  retried (Return None) = false.
Proof.
  intros Hno.
  assert (pass_events w w = []) as Hev by (unfold pass_events; apply drop_all).
  split; [|by rewrite Hev].
  apply (invalid_name_returns_at_once (pkg := package cfg)). simpl.
  destruct (ValidateCapiNaming req) eqn:E; [|done].
  destruct Hno. by apply ValidateCapiNaming_true.
Qed.


Lemma cluster_name_of_valid n :
  ValidateCapiNaming n = true ->
  Name n = cluster_name_of (Name n) ++ KubeconfigSuffix.
Proof.
  unfold ValidateCapiNaming, cluster_name_of.
  destruct (TrimSuffix (Name n) KubeconfigSuffix) as [p|] eqn:E; [|done].
  intros _. simpl. by apply TrimSuffix_Some.
Qed.

Lemma append_inj_r (p a b : string) : p ++ a = p ++ b -> a = b.
Proof.
  induction p as [|c p IH]; [done|].
  change (String c (p ++ a) = String c (p ++ b) -> a = b).
  intros [= E]. by apply IH.
Qed.

(** C7. Naming is deterministic: the registration identifier depends on the
    configuration and on the namespace and name of the credential record
    only, so it is the same at every reconciliation.  It is not injective on
    credential records: with namespaces not folded in, records of one name in
    different namespaces get the same identifier.  Within one namespace,
    valid names that differ get identifiers that differ. *)
Theorem naming_is_deterministic :
  (forall c c' s s',
     metaName (SecretMeta s) = metaName (SecretMeta s') ->
     metaNamespace (SecretMeta s) = metaNamespace (SecretMeta s') ->
     NamespacedName_ (NewArgoCluster cfg c s) = NamespacedName_ (NewArgoCluster cfg c' s')) /\
  (EnableNamespacedNames cfg = false ->
   forall name namespace namespace',
     BuildNamespacedName cfg name namespace = BuildNamespacedName cfg name namespace') /\
  (forall namespace name name',
     ValidateCapiNaming (mkNN namespace name) = true ->
     ValidateCapiNaming (mkNN namespace name') = true ->
     BuildNamespacedName cfg name namespace = BuildNamespacedName cfg name' namespace ->
     name = name').
Proof.
  split; [|split].
  - intros c c' s s' Hn Hns. unfold NewArgoCluster. simpl. by rewrite Hn, Hns.
  - intros Hflag name ns ns'. unfold BuildNamespacedName. by rewrite Hflag.
  - intros ns name name' Hv Hv' E.
    apply cluster_name_of_valid in Hv, Hv'. simpl in Hv, Hv'.
    rewrite Hv, Hv'. f_equal.
    unfold BuildNamespacedName in E. injection E as E.
    destruct (EnableNamespacedNames cfg); [|done].
    by do 2 apply append_inj_r in E.
Qed.

End WithConfig.

End SpecModelProperties.

(** ** The scenarios, evaluated *)

Module ScenarioFacts.
Import SpecModel SpecModelProperties Scenario.

(** Scenario A: a valid credential record and no registration record yet. *)
Example scenario_created :
  let w := world [capi_demo] resolves in
  let run := Reconcile (pkg := pkg) req_demo w in
  run.1 = Return None /\
  outcome run.1 (pass_events w run.2) = Created /\
  List.filter is_write (pass_events w run.2) = [CallCreate argoSecret_demo] /\
  GoMap.get [] (Data argoSecret_demo) "name" = bytes_of_string "demo" /\
  GoMap.get [] (Data argoSecret_demo) "server" = bytes_of_string "https://1.2.3.4:6443".
Proof. vm_compute. repeat split. Qed.

(** Scenario C: an owned registration record with a stale server. *)
Example scenario_updated :
  let w := world [capi_demo; argo_stale] resolves in
  let run := Reconcile (pkg := pkg) req_demo w in
  run.1 = Return None /\
  outcome run.1 (pass_events w run.2) = Updated /\
  List.filter is_write (pass_events w run.2) = [CallUpdate argo_fresh] /\
  store run.2 !! argo_demo = Some argo_fresh.
Proof. vm_compute. repeat split. Qed.

(** The whole pass on an owned registration record without a data map. *)
Example scenario_no_data_panics :
  let w := world [capi_demo; argo_no_data] resolves in
  let run := Reconcile (pkg := pkg) req_demo w in
  run.1 = Panic "assignment to entry in nil map" /\
  outcome run.1 (pass_events w run.2) = Crashed /\
  List.filter is_write (pass_events w run.2) = [].
Proof. vm_compute. repeat split. Qed.

(** The guard on some label maps. *)
Example guard_rejects_no_labels : ValidateObjectOwner argo_foreign <> None.
Proof. vm_compute. discriminate. Qed.

Example guard_rejects_True : ValidateObjectOwner argo_True <> None.
Proof. vm_compute. discriminate. Qed.

Example guard_rejects_1 :
  ValidateObjectOwner
    (secret "argocd" "demo" "Opaque" (GoMap.of_list [("capi-to-argocd/owned", "1")]) None)
  <> None.
Proof. vm_compute. discriminate. Qed.

Example guard_rejects_other_key :
  ValidateObjectOwner
    (secret "argocd" "demo" "Opaque" (GoMap.of_list [("owned", "true")]) None)
  <> None.
Proof. vm_compute. discriminate. Qed.

Example guard_accepts_true : ValidateObjectOwner argo_stale = None.
Proof. vm_compute. reflexivity. Qed.

(** Scenario B: the registration record is somebody else's. *)
Lemma ownership_safety_witness :
  let w := world [capi_demo; argo_foreign] resolves in
  exists w',
    Reconcile (pkg := pkg) req_demo w = (Return None, w') /\
    store w' = store w /\
    store w' !! argo_demo = Some argo_foreign /\
    no_writes (pass_events w w') /\
    outcome (Return None) (pass_events w w') = Skipped.
Proof.
  intros w.
  apply (ownership_safety (pkg := pkg) req_demo w argoCluster_demo argoSecret_demo
           (fetch_and_transform (pkg := pkg) req_demo w).2 argo_foreign
           (Get argo_demo (fetch_and_transform (pkg := pkg) req_demo w).2).2
           (ErrorString "not owned by CACO"));
    vm_compute; reflexivity.
Defined.

(** A credential record of the wrong type: the pass fails. *)
Lemma wrong_type_is_returned_as_error_witness :
  let w := world [capi_wrong_type] resolves in
  exists w',
    Reconcile (pkg := pkg) req_demo w
    = (Return (Some (ErrorString "InvalidRecordKind")), w') /\
    outcome (Return (Some (ErrorString "InvalidRecordKind"))) (pass_events w w') = Failed /\
    retried (Return (Some (ErrorString "InvalidRecordKind"))) = true /\
    store w' = store w /\
    no_writes (pass_events w w').
Proof.
  intros w.
  apply (wrong_type_is_returned_as_error cfg (codec := url_codec) req_demo w
           capi_wrong_type (Get req_demo w).2).
  - vm_compute; reflexivity.
  - vm_compute; reflexivity.
  - vm_compute; discriminate.
Defined.



(** An owned registration record without a data map, against the record
    transformed from [capi_demo]. *)
Lemma diff_and_apply_nil_data_panics_witness :
  let w := world [capi_demo; argo_no_data] resolves in
  exists w',
    reconcile_existing (pkg := pkg) argoCluster_demo argoSecret_demo argo_no_data w
    = (Panic "assignment to entry in nil map", w') /\
    store w' = store w /\
    no_writes (pass_events w w').
Proof.
  intros w.
  apply (diff_and_apply_nil_data_panics (pkg := pkg) argoCluster_demo argoSecret_demo
           argo_no_data w);
    vm_compute; reflexivity.
Defined.


(** Scenario D: [foo-bar] carries no credential suffix. *)
Lemma unmatched_name_is_skipped_witness :
  let req := mkNN "default" "foo-bar" in
  let w := world [capi_demo] resolves in
  Reconcile (pkg := pkg) req w = (Return None, w) /\
  pass_events w w = [] /\
  outcome (Return None) (pass_events w w) = Skipped /\
  retried (Return None) = false.
Proof.
  intros req w.
  apply (unmatched_name_is_skipped cfg (codec := url_codec) req w).
  intros Hm. apply ValidateCapiNaming_true in Hm. vm_compute in Hm. discriminate Hm.
Defined.

(** The empty cluster name: [-kubeconfig] alone is turned down too. *)
Example bare_suffix_is_skipped :
  ValidateCapiNaming (mkNN "default" "-kubeconfig") = false.
Proof. reflexivity. Qed.

(** Two credential records of one name in two namespaces, one registration
    identifier. *)
Lemma same_name_in_two_namespaces_collides :
  key_of capi_demo <> key_of capi_demo_staging /\
  ValidateCapiNaming (key_of capi_demo) = true /\
  ValidateCapiNaming (key_of capi_demo_staging) = true /\
  ValidateCapiSecret capi_demo = None /\
  ValidateCapiSecret capi_demo_staging = None /\
  NamespacedName_ (NewArgoCluster cfg (codec := url_codec) "https://1.2.3.4:6443" capi_demo)
  = NamespacedName_
      (NewArgoCluster cfg (codec := url_codec) "https://1.2.3.4:6443" capi_demo_staging).
Proof. vm_compute. repeat split. discriminate. Qed.

Lemma naming_is_deterministic_witness :
  EnableNamespacedNames cfg = false /\
  BuildNamespacedName cfg "demo-kubeconfig" "default"
  = BuildNamespacedName cfg "demo-kubeconfig" "staging".
Proof.
  split; [reflexivity|].
  refine (proj1 (proj2 (naming_is_deterministic cfg (codec := url_codec))) _
            "demo-kubeconfig" "default" "staging").
  reflexivity.
Defined.

(** The credential record is gone: one read, nil. *)
Lemma missing_credential_is_success_witness :
  let w := world [] resolves in
  let w1 := (Get req_demo w).2 in
  Reconcile (pkg := pkg) req_demo w = (Return None, w1) /\
  retried (Return None) = false /\
  store w1 = store w /\
  pass_events w w1 = [CallGet req_demo].
Proof.
  intros w w1.
  apply (missing_credential_is_success (pkg := pkg) req_demo w StatusNotFound w1);
    vm_compute; reflexivity.
Defined.

(** The update of scenario C. *)
Lemma update_frame_witness :
  let w := world [capi_demo; argo_stale] resolves in
  exists key existingSecret d d',
    store w !! key = Some existingSecret /\
    SecretMeta argo_fresh = SecretMeta existingSecret /\
    Type_ argo_fresh = Type_ existingSecret /\
    Data existingSecret = Some d /\
    Data argo_fresh = Some d' /\
    forall k, k ∉ ["name"; "server"; "config"] -> d' !! k = d !! k.
Proof.
  intros w.
  apply (update_frame (pkg := pkg) req_demo w
           (Reconcile (pkg := pkg) req_demo w).1 (Reconcile (pkg := pkg) req_demo w).2
           argo_fresh).
  - vm_compute; reflexivity.
  - apply (bool_decide_unpack _). vm_compute. exact I.
Defined.

(** The marker spelled "True" does not make a record owned. *)
Lemma ownership_guard_exact_witness :
  let w := world [capi_demo; argo_True] resolves in
  exists w',
    reconcile_existing (pkg := pkg) argoCluster_demo argoSecret_demo argo_True w
    = (Return None, w') /\
    store w' = store w /\
    no_writes (pass_events w w').
Proof.
  intros w.
  apply (proj2 (ownership_guard_exact (pkg := pkg) argo_True)).
  vm_compute. discriminate.
Defined.

End ScenarioFacts.

(** ** More scenarios, evaluated *)

Module MoreScenarioFacts.
Import SpecModel Scenario MoreScenarios.

(** The worlds of the scenarios are well keyed. *)
Lemma world_is_well_keyed objs clusters : well_keyed (store (world objs clusters)).
Proof.
  unfold world, well_keyed. simpl.
  induction objs as [|o objs IH]; intros k s; simpl.
  - by rewrite lookup_empty.
  - destruct (decide (key_of o = k)) as [<-|Hne].
    + rewrite lookup_insert_eq. by intros [= <-].
    + rewrite lookup_insert_ne by done. apply IH.
Qed.

Lemma init_namespace_is_never_empty_witness :
  ArgoNamespace (init env_gitops) = "gitops".
Proof.
  refine (proj1 (proj2 (init_namespace_is_never_empty env_gitops)) _).
  vm_compute. discriminate.
Defined.

(** The API server is unavailable at the first read. *)
Lemma fetch_error_is_returned_witness :
  let w := world_with [capi_demo] resolves [Some StatusUnavailable] in
  let w1 := (Get req_demo w).2 in
  Reconcile (pkg := pkg) req_demo w = (Return (Some StatusUnavailable), w1) /\
  store w1 = store w /\
  pass_events w w1 = [CallGet req_demo].
Proof.
  intros w w1.
  apply (fetch_error_is_returned (pkg := pkg) req_demo w StatusUnavailable w1);
    vm_compute; reflexivity.
Defined.

(** A credential record with an empty configuration, under the picky codec. *)
Lemma transformer_error_is_returned_witness :
  let w := world [capi_empty] resolves in
  exists w',
    Reconcile (pkg := pkg_picky) req_demo w
    = (Return (Some (ErrorString "MalformedConfig")), w') /\
    store w' = store w /\
    List.filter is_client_call (pass_events w w')
    = [CallGet req_demo; CallResolve (SecretMeta capi_empty)].
Proof.
  intros w.
  apply (transformer_error_is_returned (pkg := pkg_picky) req_demo w capi_empty
           (Get req_demo w).2 (mkCluster "demo" None) (ErrorString "MalformedConfig")).
  - vm_compute; reflexivity.
  - vm_compute; reflexivity.
  - vm_compute; reflexivity.
  - vm_compute; reflexivity.
  - left. vm_compute; reflexivity.
Defined.

(** The API server is unavailable at the second read. *)
Lemma lookup_error_is_returned_witness :
  let w := world_with [capi_demo] resolves [None; Some StatusUnavailable] in
  exists w',
    Reconcile (pkg := pkg) req_demo w = (Return (Some StatusUnavailable), w') /\
    store w' = store w /\
    no_writes (pass_events w w').
Proof.
  intros w.
  apply (lookup_error_is_returned (pkg := pkg) req_demo w argoCluster_demo argoSecret_demo
           (fetch_and_transform (pkg := pkg) req_demo w).2 StatusUnavailable
           (Get argo_demo (fetch_and_transform (pkg := pkg) req_demo w).2).2);
    vm_compute; reflexivity.
Defined.

(** The update of the stale record is an update of an owned record. *)
Lemma updates_only_owned_records_witness :
  let w := world [capi_demo; argo_stale] resolves in
  exists k ex,
    store w !! k = Some ex /\
    ValidateObjectOwner ex = None /\
    ValidateObjectOwner argo_fresh = None /\
    key_of argo_fresh = key_of ex.
Proof.
  intros w.
  apply (updates_only_owned_records (pkg := pkg) req_demo w argo_fresh).
  apply (bool_decide_unpack _). vm_compute. exact I.
Defined.

(** The create of the first pass happens on an empty registry. *)
Lemma creates_only_when_absent_witness :
  let w := world [capi_demo] resolves in
  exists a w1,
    fetch_and_transform (pkg := pkg) req_demo w = (inr (a, argoSecret_demo), w1) /\
    store w !! ArgoNamespacedName (Package := pkg) a = None.
Proof.
  intros w.
  apply (creates_only_when_absent (pkg := pkg) req_demo w argoSecret_demo).
  - reflexivity.
  - apply (bool_decide_unpack _). vm_compute. exact I.
Defined.

(** The pass that updates the stale record leaves the credential record, which
    carries no marker, as it is. *)
Lemma unowned_records_are_untouched_witness :
  let w := world [capi_demo; argo_stale] resolves in
  store (Reconcile (pkg := pkg) req_demo w).2 !! req_demo = Some capi_demo.
Proof.
  intros w.
  apply (unowned_records_are_untouched (pkg := pkg) req_demo w req_demo capi_demo).
  - apply world_is_well_keyed.
  - vm_compute; reflexivity.
  - vm_compute; discriminate.
Defined.


(** Two passes for [capi_demo], starting from the stale record. *)
Lemma update_then_in_sync_witness :
  let w := world [capi_demo; argo_stale] resolves in
  exists w' w'',
    Reconcile (pkg := pkg) req_demo w = (Return None, w') /\
    outcome (Return None) (pass_events w w') = Updated /\
    store w' = <[argo_demo := argo_fresh]> (store w) /\
    Reconcile (pkg := pkg) req_demo w' = (Return None, w'') /\
    outcome (Return None) (pass_events w' w'') = InSync /\
    no_writes (pass_events w' w'') /\
    store w'' = store w'.
Proof.
  intros w.
  assert (argo_fresh
          = with_data argo_stale
              (Some (patched (pkg := pkg) argoCluster_demo argoSecret_demo data_stale)))
    as -> by (vm_compute; reflexivity).
  apply (update_then_in_sync (pkg := pkg) req_demo w argoCluster_demo argoSecret_demo
           (fetch_and_transform (pkg := pkg) req_demo w).2 argo_stale data_stale).
  - reflexivity.
  - vm_compute; reflexivity.
  - vm_compute; reflexivity.
  - vm_compute; reflexivity.
  - vm_compute; discriminate.
  - vm_compute; reflexivity.
  - vm_compute; reflexivity.
  - vm_compute; reflexivity.
Defined.

(** A cluster of class "prod". *)
Lemma class_label_is_set_witness :
  let w := world [capi_demo] resolves_with_class in
  exists argoSecret g' w2,
    fetch_and_transform (pkg := pkg) req_demo w = (inr (argoCluster_demo, argoSecret), w2) /\
    Labels (SecretMeta argoSecret) = Some g' /\
    g' !! "class" = Some "prod" /\
    (forall k, k <> "class" ->
               g' !! k = ({[ "capi-to-argocd/owned" := "true" ]} : gmap string string) !! k) /\
    key_of argoSecret = key_of argoSecret_demo /\
    Type_ argoSecret = Type_ argoSecret_demo /\
    Data argoSecret = Data argoSecret_demo.
Proof.
  intros w.
  apply (class_label_is_set (pkg := pkg) req_demo w capi_demo (Get req_demo w).2
           (mkCluster "demo" (Some (mkTopology "prod"))) (mkTopology "prod")
           "https://1.2.3.4:6443" argoSecret_demo
           {[ "capi-to-argocd/owned" := "true" ]});
    vm_compute; reflexivity.
Defined.

(** The owned record without a data map: the second situation. *)
Lemma panics_only_on_nil_maps_witness :
  let w := world [capi_demo; argo_no_data] resolves in
  (exists capiSecret cluster topo capiCluster s0,
     store w !! req_demo = Some capiSecret /\
     clusters w (SecretMeta capiSecret) = inr cluster /\
     SpecTopology cluster = Some topo /\
     Unmarshal (codec := url_codec) capiSecret = inr capiCluster /\
     ConvertToSecret (NewArgoCluster cfg (codec := url_codec) capiCluster capiSecret)
     = inr s0 /\
     Labels (SecretMeta s0) = None)
  \/ (exists a s w1 ex,
        fetch_and_transform (pkg := pkg) req_demo w = (inr (a, s), w1) /\
        store w !! NamespacedName_ a = Some ex /\
        ValidateObjectOwner ex = None /\ Data ex = None).
Proof.
  intros w.
  apply (panics_only_on_nil_maps (pkg := pkg) req_demo w "assignment to entry in nil map").
  vm_compute; reflexivity.
Defined.

End MoreScenarioFacts.
